(** * The competitor-intelligence pipeline of [main.py]

    A shallow embedding of the three LangGraph nodes ([firecrawl_agent],
    [analysis_agent], [comparison_agent]), of the graph built by
    [create_workflow] and of the driver [run_competitor_analysis], together
    with the parts of the Python runtime they rely on: [str] methods,
    [re.search] for the two bracket patterns, [json.loads], name lookup.

    The inference service ([llm.invoke]) and the web-search service
    ([tavily.search]) are oracles: every theorem quantifies over them. *)

From Stdlib Require Import String Ascii DecimalString.
From Stdlib Require Import List NArith ZArith Lia Bool.
Import ListNotations.
Open Scope string_scope.
Open Scope list_scope.

Set Implicit Arguments.

(** ** Python strings

    A [str] is a sequence of Unicode code points; [len] counts code points. *)

Definition pychar := N.
Definition pystr := list pychar.

(** An ASCII literal of the source, as a [str]. *)
Definition lit (s : string) : pystr := map N_of_ascii (list_ascii_of_string s).

Fixpoint str_eqb (a b : pystr) : bool :=
  match a, b with
  | [], [] => true
  | x :: a', y :: b' => N.eqb x y && str_eqb a' b'
  | _, _ => false
  end.

(** [s.startswith(p)] *)
Fixpoint startswith (p s : pystr) : bool :=
  match p, s with
  | [], _ => true
  | x :: p', y :: s' => N.eqb x y && startswith p' s'
  | _ :: _, [] => false
  end.

(** [sub in s] *)
Fixpoint str_in (sub s : pystr) : bool :=
  startswith sub s ||
  match s with
  | [] => false
  | _ :: s' => str_in sub s'
  end.

(** [s.partition(sep)], when [sep] occurs: the text before the first
    occurrence and the text after it. *)
Fixpoint partition (sep s : pystr) : option (pystr * pystr) :=
  if startswith sep s then Some ([], skipn (length sep) s)
  else match s with
       | [] => None
       | c :: s' =>
           match partition sep s' with
           | Some (b, a) => Some (c :: b, a)
           | None => None
           end
       end.

(** [s.split(sep)] for a non-empty [sep]: cut at the first occurrence and
    go on in the text after it.  Each cut removes at least one character,
    so [length s] rounds are enough ([split_unfold] below). *)
Fixpoint split_fuel (fuel : nat) (sep s : pystr) : list pystr :=
  match fuel with
  | O => [s]
  | S fuel' =>
      match partition sep s with
      | None => [s]
      | Some (b, a) => b :: split_fuel fuel' sep a
      end
  end.

Definition split (sep s : pystr) : list pystr := split_fuel (length s) sep s.

(** [str.isspace] on one code point (the whitespace set of CPython). *)
Definition isspace (c : pychar) : bool :=
  ((9 <=? c) && (c <=? 13) || (28 <=? c) && (c <=? 32) ||
   (c =? 133) || (c =? 160) || (c =? 5760) ||
   (8192 <=? c) && (c <=? 8202) || (c =? 8232) || (c =? 8233) ||
   (c =? 8239) || (c =? 8287) || (c =? 12288))%N.

Fixpoint lstrip (s : pystr) : pystr :=
  match s with
  | [] => []
  | c :: s' => if isspace c then lstrip s' else s
  end.

Definition rstrip (s : pystr) : pystr := rev (lstrip (rev s)).

(** [s.strip()] *)
Definition strip (s : pystr) : pystr := rstrip (lstrip s).

(** Truth value of a [str]: non-empty. *)
Definition truthy (s : pystr) : bool :=
  match s with [] => false | _ :: _ => true end.

(** [str(n)] for a non-negative [int]. *)
Definition str_of_nat (n : nat) : pystr :=
  lit (NilZero.string_of_uint (Nat.to_uint n)).

(** ** [re.search] for a pattern [o.*c] under [re.DOTALL]

    [re.search(r'\[.*\]', s, re.DOTALL)] and [re.search(r'\{.*\}', ...)]:
    the leftmost match starts at the first opener that has a closer after
    it, so at the first opener; the greedy [.*] (which under DOTALL also
    crosses newlines) runs to the last closer. *)

(** The text after the first [o]. *)
Fixpoint after_first (o : pychar) (s : pystr) : option pystr :=
  match s with
  | [] => None
  | x :: s' => if N.eqb x o then Some s' else after_first o s'
  end.

(** The prefix that ends with the last [c]. *)
Fixpoint upto_last (c : pychar) (s : pystr) : option pystr :=
  match s with
  | [] => None
  | x :: s' =>
      match upto_last c s' with
      | Some r => Some (x :: r)
      | None => if N.eqb x c then Some [x] else None
      end
  end.

(** [m = re.search(o.*c, s, re.DOTALL)]; [Some] carries [m.group()]. *)
Definition re_search (o c : pychar) (s : pystr) : option pystr :=
  match after_first o s with
  | None => None
  | Some rest =>
      match upto_last c rest with
      | None => None
      | Some body => Some (o :: body)
      end
  end.

Definition LBRACKET : pychar := 91%N.
Definition RBRACKET : pychar := 93%N.
Definition LBRACE : pychar := 123%N.
Definition RBRACE : pychar := 125%N.

(** ** Python values and exceptions *)

(** The values [json.loads] builds, which are also the values the search
    service returns (it decodes a JSON response).  A [float] is kept as
    the text it was read from; a [dict] is its items in insertion order. *)
#[warnings="-register-all"]
Inductive pyval : Type :=
| PNone
| PBool (b : bool)
| PInt (z : Z)
| PFloat (lexeme : pystr)
| PStr (s : pystr)
| PList (l : list pyval)
| PDict (d : list (pystr * pyval)).

Inductive exn : Type :=
| JSONDecodeError
| RecursionError
| NameError (name : string)
| TypeError
| AttributeError
| IndexError
| GraphRecursionError
| ServiceError (msg : pystr).

(** The outcome of evaluating Python code: a value or a raised exception. *)
Inductive result (A : Type) : Type :=
| Ok (a : A)
| Raise (e : exn).
Arguments Ok {A} a.
Arguments Raise {A} e.

Definition rbind {A B} (r : result A) (f : A -> result B) : result B :=
  match r with
  | Ok a => f a
  | Raise e => Raise e
  end.

Declare Scope result_scope.
Delimit Scope result_scope with res.
Notation "x <- r ;; k" := (rbind r (fun x => k))
  (at level 61, r at next level, right associativity) : result_scope.
Notation "' pat <- r ;; k" := (rbind r (fun x => match x with pat => k end))
  (at level 61, pat pattern, r at next level, right associativity) : result_scope.

(** ** [json.loads]

    The decoder of CPython's [json] package with its default settings
    (strict strings, [NaN] and [Infinity] accepted), as a recursive descent
    over the text.  Every function returns the value it read together with
    the text that follows it.  The interpreter's own recursion limit is not
    modelled. *)

Definition QUOTE : pychar := 34%N.
Definition BACKSLASH : pychar := 92%N.
Definition COMMA : pychar := 44%N.
Definition COLON : pychar := 58%N.
Definition MINUS : pychar := 45%N.

(** The JSON whitespace: space, tab, line feed, carriage return. *)
Definition is_ws (c : pychar) : bool :=
  ((c =? 32) || (c =? 9) || (c =? 10) || (c =? 13))%N.

Fixpoint skip_ws (s : pystr) : pystr :=
  match s with
  | [] => []
  | c :: s' => if is_ws c then skip_ws s' else s
  end.

Definition is_digit (c : pychar) : bool := ((48 <=? c) && (c <=? 57))%N.

Definition hex_value (c : pychar) : option N :=
  if is_digit c then Some (c - 48)%N
  else if ((97 <=? c) && (c <=? 102))%N then Some (c - 87)%N
  else if ((65 <=? c) && (c <=? 70))%N then Some (c - 55)%N
  else None.

(** The four hexadecimal digits of a [\uXXXX] escape. *)
Definition hex4 (a b c d : pychar) : option N :=
  match hex_value a, hex_value b, hex_value c, hex_value d with
  | Some x, Some y, Some z, Some w => Some (((x * 16 + y) * 16 + z) * 16 + w)%N
  | _, _, _, _ => None
  end.

(** The one-letter escapes. *)
Definition unescape (c : pychar) : option pychar :=
  if (c =? 34)%N then Some 34%N          (* quote *)
  else if (c =? 92)%N then Some 92%N     (* backslash *)
  else if (c =? 47)%N then Some 47%N     (* slash *)
  else if (c =? 98)%N then Some 8%N      (* b: backspace *)
  else if (c =? 102)%N then Some 12%N    (* f: form feed *)
  else if (c =? 110)%N then Some 10%N    (* n: line feed *)
  else if (c =? 114)%N then Some 13%N    (* r: carriage return *)
  else if (c =? 116)%N then Some 9%N     (* t: tab *)
  else None.

Definition is_high_surrogate (u : N) : bool := ((55296 <=? u) && (u <=? 56319))%N.
Definition is_low_surrogate (u : N) : bool := ((56320 <=? u) && (u <=? 57343))%N.
Definition join_surrogates (hi lo : N) : N :=
  (65536 + ((hi - 55296) * 1024 + (lo - 56320)))%N.

(** Characters read so far (latest first), with a high surrogate that
    still waits for its partner put back in front. *)
Definition flush (pend : option N) (acc : pystr) : pystr :=
  match pend with
  | Some hi => hi :: acc
  | None => acc
  end.

(** [scanstring]: the text after an opening quote, up to the closing one.
    [pend] holds a high surrogate read from the [\uXXXX] escape just
    before; it is joined with a low surrogate escape that follows at once
    and kept as it is otherwise. *)
Fixpoint scanstring_from (pend : option N) (acc : pystr) (s : pystr)
  : result (pystr * pystr) :=
  match s with
  | [] => Raise JSONDecodeError
  | c :: t =>
      if (c =? QUOTE)%N then Ok (rev (flush pend acc), t)
      else if (c =? BACKSLASH)%N then
        match t with
        | [] => Raise JSONDecodeError
        | e :: t1 =>
            if (e =? 117)%N then
              match t1 with
              | h1 :: h2 :: h3 :: h4 :: t2 =>
                  match hex4 h1 h2 h3 h4 with
                  | None => Raise JSONDecodeError
                  | Some u =>
                      match pend with
                      | Some hi =>
                          if is_low_surrogate u
                          then scanstring_from None (join_surrogates hi u :: acc) t2
                          else if is_high_surrogate u
                          then scanstring_from (Some u) (hi :: acc) t2
                          else scanstring_from None (u :: hi :: acc) t2
                      | None =>
                          if is_high_surrogate u
                          then scanstring_from (Some u) acc t2
                          else scanstring_from None (u :: acc) t2
                      end
                  end
              | _ => Raise JSONDecodeError
              end
            else
              match unescape e with
              | Some ch => scanstring_from None (ch :: flush pend acc) t1
              | None => Raise JSONDecodeError
              end
        end
      else if (c <? 32)%N then Raise JSONDecodeError
      else scanstring_from None (c :: flush pend acc) t
  end.

Definition scanstring (s : pystr) : result (pystr * pystr) :=
  scanstring_from None [] s.

(** The longest run of ASCII digits at the front, and what follows. *)
Fixpoint span_digits (s : pystr) : pystr * pystr :=
  match s with
  | [] => ([], [])
  | c :: s' =>
      if is_digit c
      then let (ds, r) := span_digits s' in (c :: ds, r)
      else ([], s)
  end.

Definition int_of_digits (ds : pystr) : Z :=
  fold_left (fun acc c => (10 * acc + Z.of_N (c - 48))%Z) ds 0%Z.

(** The integer part [0|[1-9][0-9]*] of a number. *)
Definition match_int_part (s : pystr) : option (pystr * pystr) :=
  match s with
  | [] => None
  | c :: t =>
      if (c =? 48)%N then Some ([c], t)
      else if is_digit c then let (ds, r) := span_digits t in Some (c :: ds, r)
      else None
  end.

(** The optional fraction [\.[0-9]+]: taken only with a digit after the dot. *)
Definition match_frac (s : pystr) : pystr * pystr :=
  match s with
  | dot :: t =>
      if (dot =? 46)%N then
        match span_digits t with
        | ([], _) => ([], s)
        | (ds, r) => (dot :: ds, r)
        end
      else ([], s)
  | [] => ([], s)
  end.

(** The optional exponent [[eE][-+]?[0-9]+]: taken only when complete. *)
Definition match_exp (s : pystr) : pystr * pystr :=
  match s with
  | e :: t =>
      if ((e =? 101) || (e =? 69))%N then
        let (sign, t1) :=
          match t with
          | sg :: t' => if ((sg =? 43) || (sg =? 45))%N then ([sg], t') else ([], t)
          | [] => ([], t)
          end in
        match span_digits t1 with
        | ([], _) => ([], s)
        | (ds, r) => (e :: sign ++ ds, r)
        end
      else ([], s)
  | [] => ([], s)
  end.

(** [NUMBER_RE.match]: an [int] without fraction and exponent, else a [float]. *)
Definition match_number (s : pystr) : option (pyval * pystr) :=
  let (neg, s1) :=
    match s with
    | c :: t => if (c =? MINUS)%N then (true, t) else (false, s)
    | [] => (false, s)
    end in
  match match_int_part s1 with
  | None => None
  | Some (ip, r1) =>
      let (frac, r2) := match_frac r1 in
      let (ex, r3) := match_exp r2 in
      match frac, ex with
      | [], [] =>
          Some (PInt (if neg then - int_of_digits ip else int_of_digits ip)%Z, r3)
      | _, _ =>
          Some (PFloat ((if neg then [MINUS] else []) ++ ip ++ frac ++ ex), r3)
      end
  end.

(** The constants, then numbers: what [scan_once] tries on a character
    that opens neither a string, an object nor an array. *)
Definition scan_atom (s : pystr) : result (pyval * pystr) :=
  if startswith (lit "null") s then Ok (PNone, skipn 4 s)
  else if startswith (lit "true") s then Ok (PBool true, skipn 4 s)
  else if startswith (lit "false") s then Ok (PBool false, skipn 5 s)
  else if startswith (lit "NaN") s then Ok (PFloat (lit "NaN"), skipn 3 s)
  else if startswith (lit "Infinity") s then Ok (PFloat (lit "Infinity"), skipn 8 s)
  else if startswith (lit "-Infinity") s then Ok (PFloat (lit "-Infinity"), skipn 9 s)
  else match match_number s with
       | Some r => Ok r
       | None => Raise JSONDecodeError
       end.

(** [d[k] = v] on the items of a [dict]: a key already present keeps its
    place and takes the new value. *)
Fixpoint dict_set (d : list (pystr * pyval)) (k : pystr) (v : pyval)
  : list (pystr * pyval) :=
  match d with
  | [] => [(k, v)]
  | (k', v') :: d' =>
      if str_eqb k k' then (k', v) :: d' else (k', v') :: dict_set d' k v
  end.

(** [dict(pairs)] *)
Definition dict_of_pairs (pairs : list (pystr * pyval)) : list (pystr * pyval) :=
  fold_left (fun d kv => dict_set d (fst kv) (snd kv)) pairs [].

(** [scan_once], with [JSONArray] and [JSONObject] after their opening
    bracket.  [array_items] is the loop of [JSONArray] at the start of a
    value; [object_items] is the loop of [JSONObject] just after the
    opening quote of a key.  [fuel] bounds the number of calls;
    [json_loads] gives enough of it ([json_loads_fuel] below). *)
Fixpoint scan_once (fuel : nat) (s : pystr) {struct fuel} : result (pyval * pystr) :=
  match fuel with
  | O => Raise RecursionError
  | S f =>
      match s with
      | [] => Raise JSONDecodeError
      | c :: t =>
          if (c =? QUOTE)%N then
            match scanstring t with
            | Ok (str, r) => Ok (PStr str, r)
            | Raise e => Raise e
            end
          else if (c =? LBRACE)%N then
            match skip_ws t with
            | c1 :: r =>
                if (c1 =? RBRACE)%N then Ok (PDict [], r)
                else if (c1 =? QUOTE)%N then object_items f r []
                else Raise JSONDecodeError
            | [] => Raise JSONDecodeError
            end
          else if (c =? LBRACKET)%N then
            match skip_ws t with
            | c1 :: r =>
                if (c1 =? RBRACKET)%N then Ok (PList [], r)
                else array_items f (c1 :: r) []
            | [] => Raise JSONDecodeError
            end
          else scan_atom s
      end
  end

with array_items (fuel : nat) (s : pystr) (acc : list pyval) {struct fuel}
  : result (pyval * pystr) :=
  match fuel with
  | O => Raise RecursionError
  | S f =>
      match scan_once f s with
      | Raise e => Raise e
      | Ok (v, r) =>
          match skip_ws r with
          | c :: r1 =>
              if (c =? RBRACKET)%N then Ok (PList (rev (v :: acc)), r1)
              else if (c =? COMMA)%N then array_items f (skip_ws r1) (v :: acc)
              else Raise JSONDecodeError
          | [] => Raise JSONDecodeError
          end
      end
  end

with object_items (fuel : nat) (s : pystr) (acc : list (pystr * pyval)) {struct fuel}
  : result (pyval * pystr) :=
  match fuel with
  | O => Raise RecursionError
  | S f =>
      match scanstring s with
      | Raise e => Raise e
      | Ok (key, r) =>
          match skip_ws r with
          | c :: r1 =>
              if (c =? COLON)%N then
                match scan_once f (skip_ws r1) with
                | Raise e => Raise e
                | Ok (v, r2) =>
                    match skip_ws r2 with
                    | c2 :: r3 =>
                        if (c2 =? RBRACE)%N
                        then Ok (PDict (dict_of_pairs (rev ((key, v) :: acc))), r3)
                        else if (c2 =? COMMA)%N then
                          match skip_ws r3 with
                          | c3 :: r4 =>
                              if (c3 =? QUOTE)%N
                              then object_items f r4 ((key, v) :: acc)
                              else Raise JSONDecodeError
                          | [] => Raise JSONDecodeError
                          end
                        else Raise JSONDecodeError
                    | [] => Raise JSONDecodeError
                    end
                end
              else Raise JSONDecodeError
          | [] => Raise JSONDecodeError
          end
      end
  end.

(** [json.loads(s)] for a [str]: no byte order mark at the front, one
    value, and nothing but whitespace around it. *)
Definition json_loads (s : pystr) : result pyval :=
  match s with
  | 65279%N :: _ => Raise JSONDecodeError
  | _ =>
      match scan_once (2 * length s + 1) (skip_ws s) with
      | Raise e => Raise e
      | Ok (v, r) =>
          match skip_ws r with
          | [] => Ok v
          | _ :: _ => Raise JSONDecodeError
          end
      end
  end.

(** A string literal of JSON text: [s] between double quotes. *)
Definition quoted (s : string) : pystr := QUOTE :: lit s ++ [QUOTE].

(** ** Operations on Python values *)

(** [len(v)] *)
Definition py_len (v : pyval) : result nat :=
  match v with
  | PStr s => Ok (length s)
  | PList l => Ok (length l)
  | PDict d => Ok (length d)
  | _ => Raise TypeError
  end.

(** [v[:n]] *)
Definition py_slice (v : pyval) (n : nat) : result pyval :=
  match v with
  | PStr s => Ok (PStr (firstn n s))
  | PList l => Ok (PList (firstn n l))
  | _ => Raise TypeError
  end.

(** The elements [for x in v] runs through. *)
Definition py_iter (v : pyval) : result (list pyval) :=
  match v with
  | PList l => Ok l
  | PStr s => Ok (map (fun c => PStr [c]) s)
  | PDict d => Ok (map (fun kv => PStr (fst kv)) d)
  | _ => Raise TypeError
  end.

Fixpoint dict_lookup (d : list (pystr * pyval)) (k : pystr) : option pyval :=
  match d with
  | [] => None
  | (k', v) :: d' => if str_eqb k k' then Some v else dict_lookup d' k
  end.

(** [v.get(key, default)]: only a [dict] has the method. *)
Definition py_get (v : pyval) (key : pystr) (default : pyval) : result pyval :=
  match v with
  | PDict d =>
      match dict_lookup d key with
      | Some x => Ok x
      | None => Ok default
      end
  | _ => Raise AttributeError
  end.

(** [l[i]] on a list *)
Definition py_index {A} (l : list A) (i : nat) : result A :=
  match nth_error l i with
  | Some x => Ok x
  | None => Raise IndexError
  end.

(** ** The shared state *)

Inductive Status : Type := pending | working | complete.

(** The three nodes; their names are also the keys of [agent_status]. *)
Inductive Agent : Type := firecrawl | analysis | comparison.

Record StatusMap : Type := {
  status_firecrawl : Status;
  status_analysis : Status;
  status_comparison : Status
}.

Definition status_of (m : StatusMap) (a : Agent) : Status :=
  match a with
  | firecrawl => status_firecrawl m
  | analysis => status_analysis m
  | comparison => status_comparison m
  end.

Definition status_set (m : StatusMap) (a : Agent) (s : Status) : StatusMap :=
  match a with
  | firecrawl => {| status_firecrawl := s; status_analysis := status_analysis m;
                    status_comparison := status_comparison m |}
  | analysis => {| status_firecrawl := status_firecrawl m; status_analysis := s;
                   status_comparison := status_comparison m |}
  | comparison => {| status_firecrawl := status_firecrawl m;
                     status_analysis := status_analysis m; status_comparison := s |}
  end.

(** [AgentState], the blackboard. *)
Record AgentState : Type := {
  user_input : pystr;
  analysis_mode : pystr;
  messages : list pystr;
  search_queries : pyval;
  raw_competitors : list pyval;
  competitors : pyval;
  competitive_analysis : pystr;
  market_gaps : list pystr;
  competitor_weaknesses : list pystr;
  feature_comparison : pyval;
  strategic_recommendations : pystr;
  agent_status : StatusMap
}.

Definition with_messages (b : AgentState) (x : list pystr) : AgentState :=
  {| user_input := user_input b; analysis_mode := analysis_mode b;
     messages := x; search_queries := search_queries b;
     raw_competitors := raw_competitors b; competitors := competitors b;
     competitive_analysis := competitive_analysis b; market_gaps := market_gaps b;
     competitor_weaknesses := competitor_weaknesses b;
     feature_comparison := feature_comparison b;
     strategic_recommendations := strategic_recommendations b;
     agent_status := agent_status b |}.

Definition with_search_queries (b : AgentState) (x : pyval) : AgentState :=
  {| user_input := user_input b; analysis_mode := analysis_mode b;
     messages := messages b; search_queries := x;
     raw_competitors := raw_competitors b; competitors := competitors b;
     competitive_analysis := competitive_analysis b; market_gaps := market_gaps b;
     competitor_weaknesses := competitor_weaknesses b;
     feature_comparison := feature_comparison b;
     strategic_recommendations := strategic_recommendations b;
     agent_status := agent_status b |}.

Definition with_raw_competitors (b : AgentState) (x : list pyval) : AgentState :=
  {| user_input := user_input b; analysis_mode := analysis_mode b;
     messages := messages b; search_queries := search_queries b;
     raw_competitors := x; competitors := competitors b;
     competitive_analysis := competitive_analysis b; market_gaps := market_gaps b;
     competitor_weaknesses := competitor_weaknesses b;
     feature_comparison := feature_comparison b;
     strategic_recommendations := strategic_recommendations b;
     agent_status := agent_status b |}.

Definition with_competitors (b : AgentState) (x : pyval) : AgentState :=
  {| user_input := user_input b; analysis_mode := analysis_mode b;
     messages := messages b; search_queries := search_queries b;
     raw_competitors := raw_competitors b; competitors := x;
     competitive_analysis := competitive_analysis b; market_gaps := market_gaps b;
     competitor_weaknesses := competitor_weaknesses b;
     feature_comparison := feature_comparison b;
     strategic_recommendations := strategic_recommendations b;
     agent_status := agent_status b |}.

Definition with_competitive_analysis (b : AgentState) (x : pystr) : AgentState :=
  {| user_input := user_input b; analysis_mode := analysis_mode b;
     messages := messages b; search_queries := search_queries b;
     raw_competitors := raw_competitors b; competitors := competitors b;
     competitive_analysis := x; market_gaps := market_gaps b;
     competitor_weaknesses := competitor_weaknesses b;
     feature_comparison := feature_comparison b;
     strategic_recommendations := strategic_recommendations b;
     agent_status := agent_status b |}.

Definition with_market_gaps (b : AgentState) (x : list pystr) : AgentState :=
  {| user_input := user_input b; analysis_mode := analysis_mode b;
     messages := messages b; search_queries := search_queries b;
     raw_competitors := raw_competitors b; competitors := competitors b;
     competitive_analysis := competitive_analysis b; market_gaps := x;
     competitor_weaknesses := competitor_weaknesses b;
     feature_comparison := feature_comparison b;
     strategic_recommendations := strategic_recommendations b;
     agent_status := agent_status b |}.

Definition with_competitor_weaknesses (b : AgentState) (x : list pystr) : AgentState :=
  {| user_input := user_input b; analysis_mode := analysis_mode b;
     messages := messages b; search_queries := search_queries b;
     raw_competitors := raw_competitors b; competitors := competitors b;
     competitive_analysis := competitive_analysis b; market_gaps := market_gaps b;
     competitor_weaknesses := x;
     feature_comparison := feature_comparison b;
     strategic_recommendations := strategic_recommendations b;
     agent_status := agent_status b |}.

Definition with_feature_comparison (b : AgentState) (x : pyval) : AgentState :=
  {| user_input := user_input b; analysis_mode := analysis_mode b;
     messages := messages b; search_queries := search_queries b;
     raw_competitors := raw_competitors b; competitors := competitors b;
     competitive_analysis := competitive_analysis b; market_gaps := market_gaps b;
     competitor_weaknesses := competitor_weaknesses b;
     feature_comparison := x;
     strategic_recommendations := strategic_recommendations b;
     agent_status := agent_status b |}.

Definition with_strategic_recommendations (b : AgentState) (x : pystr) : AgentState :=
  {| user_input := user_input b; analysis_mode := analysis_mode b;
     messages := messages b; search_queries := search_queries b;
     raw_competitors := raw_competitors b; competitors := competitors b;
     competitive_analysis := competitive_analysis b; market_gaps := market_gaps b;
     competitor_weaknesses := competitor_weaknesses b;
     feature_comparison := feature_comparison b;
     strategic_recommendations := x;
     agent_status := agent_status b |}.

Definition with_agent_status (b : AgentState) (x : StatusMap) : AgentState :=
  {| user_input := user_input b; analysis_mode := analysis_mode b;
     messages := messages b; search_queries := search_queries b;
     raw_competitors := raw_competitors b; competitors := competitors b;
     competitive_analysis := competitive_analysis b; market_gaps := market_gaps b;
     competitor_weaknesses := competitor_weaknesses b;
     feature_comparison := feature_comparison b;
     strategic_recommendations := strategic_recommendations b;
     agent_status := x |}.

(** ** The services and the record of a run *)

(** What a prompt is built from.  The wording around these values is fixed
    text of the source and plays no part in what the nodes do with the
    answer. *)
Inductive Prompt : Type :=
| planning_prompt (business : pystr)
| ranking_prompt (business : pystr) (raw : list pyval)
| analysis_prompt (business : pystr) (rivals : pyval)
| comparison_prompt (business : pystr) (rivals : pyval)
| strategy_prompt (business : pystr) (summary : pystr) (matrix : pyval).

(** The world outside the module.  [llm_invoke n p] is the [content] of
    the answer to the [n]-th inference call (counted from 0) when it is
    made with prompt [p], or the exception the call raises;
    [tavily_search n q k] likewise for the [n]-th search call.
    [str_other v] is Python's [str(v)] for a value that is not a [str],
    which an f-string applies when it interpolates [v].
    [shared_lists] tells whether the list a node appends to is the very
    object held by the graph's [messages] channel. *)
Record Env : Type := {
  llm_invoke : nat -> Prompt -> result pystr;
  tavily_search : nat -> pystr -> Z -> result pyval;
  str_other : pyval -> pystr;
  shared_lists : bool
}.

(** What has happened so far in a run: the blackboard, every value it has
    taken (oldest first), the calls made to the two services with their
    outcomes, and the nodes the graph has started. *)
Record World : Type := {
  board : AgentState;
  history : list AgentState;
  llm_log : list (Prompt * result pystr);
  search_log : list (pystr * Z * result pyval);
  node_log : list Agent
}.

Definition init_world (b : AgentState) : World :=
  {| board := b; history := [b]; llm_log := []; search_log := []; node_log := [] |}.

(** Python code that reads and writes the world.  An exception leaves the
    world as it was when raised: objects mutated in place stay mutated. *)
Definition M (A : Type) : Type := World -> result A * World.

Definition ret {A} (a : A) : M A := fun w => (Ok a, w).

Definition bind {A B} (m : M A) (f : A -> M B) : M B :=
  fun w =>
    match m w with
    | (Ok a, w') => f a w'
    | (Raise e, w') => (Raise e, w')
    end.

Definition raise {A} (e : exn) : M A := fun w => (Raise e, w).

Definition lift {A} (r : result A) : M A := fun w => (r, w).

Declare Scope world_scope.
Delimit Scope world_scope with M.
Notation "x <- m ;; k" := (bind m (fun x => k))
  (at level 61, m at next level, right associativity) : world_scope.
Notation "m ;; k" := (bind m (fun _ => k))
  (at level 61, right associativity) : world_scope.

Definition get_board : M AgentState := fun w => (Ok (board w), w).

(** A write to the blackboard; the new value is added to the history. *)
Definition modify (f : AgentState -> AgentState) : M unit :=
  fun w =>
    (Ok tt,
     {| board := f (board w); history := history w ++ [f (board w)];
        llm_log := llm_log w; search_log := search_log w; node_log := node_log w |}).

(** [state["messages"].append(msg)] *)
Definition append_message (msg : pystr) : M unit :=
  modify (fun b => with_messages b (messages b ++ [msg])).

(** [state["agent_status"][a] = s] *)
Definition set_status (a : Agent) (s : Status) : M unit :=
  modify (fun b => with_agent_status b (status_set (agent_status b) a s)).

Definition log_node (a : Agent) : M unit :=
  fun w =>
    (Ok tt,
     {| board := board w; history := history w; llm_log := llm_log w;
        search_log := search_log w; node_log := node_log w ++ [a] |}).

(** ** Names

    [import json] and [import re] stand inside the bodies of
    [firecrawl_agent] and [comparison_agent], ahead of every use there:
    in these two functions [json] and [re] are local names, always bound.
    [analysis_agent] has no import of its own, so its [json] is looked up
    among the names of the module, which are the ones below and no others
    (the built-in names hold no [json] either). *)
Definition main_globals : list string :=
  ["os"; "TypedDict"; "Annotated"; "List"; "Dict"; "Any"; "add"; "load_dotenv";
   "ChatAnthropic"; "HumanMessage"; "SystemMessage"; "StateGraph"; "END";
   "TavilyClient"; "llm"; "tavily"; "AgentState"; "firecrawl_agent";
   "analysis_agent"; "comparison_agent"; "create_workflow";
   "run_competitor_analysis"; "print_results"].

Definition bound (name : string) (names : list string) : bool :=
  existsb (String.eqb name) names.

(** ** The fixed values of the source *)

Definition generic_queries : pyval :=
  PList [PStr (lit "competitors"); PStr (lit "alternatives");
         PStr (lit "similar products")].

Definition placeholder_competitor : pyval :=
  PDict [(lit "name", PStr (lit "Competitor A"));
         (lit "url", PStr (lit "competitor-a.com"));
         (lit "description", PStr (lit "Leading market player"));
         (lit "category", PStr (lit "SaaS"));
         (lit "relevanceScore", PInt 8);
         (lit "marketPosition", PStr (lit "leader"));
         (lit "relevanceReason", PStr (lit "Direct competitor"))].

Definition placeholder_feature : pyval :=
  PDict [(lit "name", PStr (lit "AI Features"));
         (lit "yourOpportunity", PStr (lit "Build"));
         (lit "competitors", PDict [(lit "Competitor A", PStr (lit "Partial"))]);
         (lit "strategicValue", PStr (lit "Differentiation"));
         (lit "implementationComplexity", PStr (lit "Medium"))].

Definition placeholder_matrix : pyval :=
  PDict [(lit "features", PList [placeholder_feature])].

Definition empty_matrix : pyval := PDict [(lit "features", PList [])].

Definition default_gaps : list pystr :=
  [lit "Underserved market segments"; lit "Feature gaps in existing solutions"].

Definition default_weaknesses : list pystr :=
  [lit "Pricing complexity"; lit "Limited features"].

Definition GAPS_HEADING : pystr := lit "Market Positioning & Gaps".
Definition WEAKNESSES_HEADING : pystr := lit "Competitor Weaknesses".

(** The progress messages. *)
Definition msg_discovery_start : pystr :=
  lit "[Firecrawl Agent] Starting competitor discovery".
Definition msg_planned (n : nat) : pystr :=
  lit "[Firecrawl Agent] Planned " ++ str_of_nat n ++ lit " search strategies".
Definition msg_found (n : nat) : pystr :=
  lit "[Firecrawl Agent] Found " ++ str_of_nat n ++ lit " potential competitors".
Definition msg_selected (n : nat) : pystr :=
  lit "[Firecrawl Agent] Selected top " ++ str_of_nat n ++ lit " competitors".
Definition msg_analysis_start : pystr :=
  lit "[Analysis Agent] Starting competitive analysis".
Definition msg_analysis_done : pystr :=
  lit "[Analysis Agent] Generated comprehensive analysis".
Definition msg_comparison_start : pystr :=
  lit "[Comparison Agent] Creating feature comparison".
Definition msg_matrix (n : nat) : pystr :=
  lit "[Comparison Agent] Created comparison with " ++ str_of_nat n
  ++ lit " features".
Definition msg_comparison_done : pystr :=
  lit "[Comparison Agent] Generated strategic recommendations".

(** ** Pure parts of the nodes *)

(** One entry of [all_competitors], from one search result. *)
Definition raw_competitor (item : pyval) : result pyval :=
  (name <- py_get item (lit "title") (PStr (lit "Unknown")) ;;
   url <- py_get item (lit "url") (PStr []) ;;
   content <- py_get item (lit "content") (PStr []) ;;
   description <- py_slice content 200 ;;
   Ok (PDict [(lit "name", name); (lit "url", url);
              (lit "description", description);
              (lit "source", PStr (lit "web_search"))]))%res.

(** The inner [for result in ...] loop under the [try]: entries are
    appended one by one; an exception ends the loop and is swallowed by
    the [except] clause, the entries appended before it stay. *)
Fixpoint append_results (items : list pyval) (all_competitors : list pyval)
  : list pyval :=
  match items with
  | [] => all_competitors
  | item :: rest =>
      match raw_competitor item with
      | Ok rc => append_results rest (all_competitors ++ [rc])
      | Raise _ => all_competitors
      end
  end.

(** The body of the [try] after the search call has returned. *)
Definition harvest (search_results : pyval) (all_competitors : list pyval)
  : list pyval :=
  match (results <- py_get search_results (lit "results") (PList []) ;;
         py_iter results)%res with
  | Ok items => append_results items all_competitors
  | Raise _ => all_competitors
  end.

(** Lines 101-105: the planned queries.  [json.loads] stands under no
    [try] here. *)
Definition plan_queries (content : pystr) : result pyval :=
  match re_search LBRACKET RBRACKET content with
  | Some group => json_loads group
  | None => Ok generic_queries
  end.

(** Lines 168-187 and 326-344: the answer to a request for structured
    data, or the stand-in for it.  [json.loads] runs under a bare
    [except], which takes every exception. *)
Definition parse_or_fallback (o c : pychar) (content : pystr)
    (on_error on_no_match : pyval) : pyval :=
  match re_search o c content with
  | Some group =>
      match json_loads group with
      | Ok v => v
      | Raise _ => on_error
      end
  | None => on_no_match
  end.

(** Lines 253-257 and 260-264, for one heading. *)
Definition extract_section (heading : pystr) (default : list pystr)
    (narrative : pystr) : result (list pystr) :=
  if str_in heading narrative then
    (rest <- py_index (split heading narrative) 1 ;;
     section <- py_index (split (lit "##") rest) 0 ;;
     Ok (firstn 5
           (map strip
              (filter (fun line => truthy (strip line) && (20 <? length line)%nat)
                      (split [10%N] section)))))%res
  else Ok default.

(** ** The three nodes *)

Section Nodes.

Variable globals : list string.
Variable env : Env.

(** Use of a name that is not local to the function. *)
Definition lookup_global (name : string) : M unit :=
  if bound name globals then ret tt else raise (NameError name).

(** [llm.invoke([HumanMessage(content=p)]).content] *)
Definition llm_call (p : Prompt) : M pystr :=
  fun w =>
    let r := llm_invoke env (length (llm_log w)) p in
    (r, {| board := board w; history := history w;
           llm_log := llm_log w ++ [(p, r)];
           search_log := search_log w; node_log := node_log w |}).

(** [tavily.search(query=q, max_results=k)] under [try]: the outcome,
    value or exception, is handed to the caller. *)
Definition search_attempt (q : pystr) (k : Z) : M (result pyval) :=
  fun w =>
    let r := tavily_search env (length (search_log w)) q k in
    (Ok r, {| board := board w; history := history w; llm_log := llm_log w;
              search_log := search_log w ++ [(q, k, r)];
              node_log := node_log w |}).

(** [f"{v}"] *)
Definition py_str (v : pyval) : pystr :=
  match v with
  | PStr s => s
  | _ => str_other env v
  end.

(** [f"{query} {user_input}"] *)
Definition search_text (query : pyval) (business : pystr) : pystr :=
  py_str query ++ lit " " ++ business.

(** Lines 115-136: one search per query; a search that raises, or whose
    answer cannot be read, is passed over. *)
Fixpoint search_loop (business : pystr) (queries : list pyval)
    (all_competitors : list pyval) : M (list pyval) :=
  match queries with
  | [] => ret all_competitors
  | query :: rest =>
      (r <- search_attempt (search_text query business) 3 ;;
       search_loop business rest
         (match r with
          | Ok search_results => harvest search_results all_competitors
          | Raise _ => all_competitors
          end))%M
  end.

Definition firecrawl_agent : M unit :=
  (state <- get_board ;;
   let business := user_input state in
   set_status firecrawl working ;;
   append_message msg_discovery_start ;;
   (* Phase 1: plan search queries *)
   content <- llm_call (planning_prompt business) ;;
   queries <- lift (plan_queries content) ;;
   modify (fun b => with_search_queries b queries) ;;
   n <- lift (py_len queries) ;;
   append_message (msg_planned n) ;;
   (* Phase 2: execute web searches *)
   first3 <- lift (py_slice queries 3) ;;
   items <- lift (py_iter first3) ;;
   all_competitors <- search_loop business items [] ;;
   modify (fun b => with_raw_competitors b all_competitors) ;;
   append_message (msg_found (length all_competitors)) ;;
   (* Phase 3: rank and filter competitors *)
   content <- llm_call (ranking_prompt business (firstn 10 all_competitors)) ;;
   let ranked := parse_or_fallback LBRACKET RBRACKET content
                   (PList [placeholder_competitor]) (PList []) in
   modify (fun b => with_competitors b ranked) ;;
   n <- lift (py_len ranked) ;;
   append_message (msg_selected n) ;;
   set_status firecrawl complete)%M.

(** Lines 250-264: what the node does with the narrative. *)
Definition store_analysis (narrative : pystr) : M unit :=
  (modify (fun b => with_competitive_analysis b narrative) ;;
   gaps <- lift (extract_section GAPS_HEADING default_gaps narrative) ;;
   modify (fun b => with_market_gaps b gaps) ;;
   weak <- lift (extract_section WEAKNESSES_HEADING default_weaknesses narrative) ;;
   modify (fun b => with_competitor_weaknesses b weak))%M.

Definition analysis_agent : M unit :=
  (state <- get_board ;;
   let business := user_input state in
   let rivals := competitors state in
   set_status analysis working ;;
   append_message msg_analysis_start ;;
   (* the prompt calls json.dumps *)
   lookup_global "json" ;;
   narrative <- llm_call (analysis_prompt business rivals) ;;
   store_analysis narrative ;;
   append_message msg_analysis_done ;;
   set_status analysis complete)%M.

Definition comparison_agent : M unit :=
  (state <- get_board ;;
   let business := user_input state in
   let rivals := competitors state in
   let narrative := competitive_analysis state in
   set_status comparison working ;;
   append_message msg_comparison_start ;;
   (* Phase 1: feature comparison matrix *)
   content <- llm_call (comparison_prompt business rivals) ;;
   let matrix := parse_or_fallback LBRACE RBRACE content
                   placeholder_matrix empty_matrix in
   modify (fun b => with_feature_comparison b matrix) ;;
   features <- lift (py_get matrix (lit "features") (PList [])) ;;
   n <- lift (py_len features) ;;
   append_message (msg_matrix n) ;;
   (* Phase 2: strategic recommendations *)
   recommendations <- llm_call (strategy_prompt business (firstn 2000 narrative) matrix) ;;
   modify (fun b => with_strategic_recommendations b recommendations) ;;
   append_message msg_comparison_done ;;
   set_status comparison complete)%M.

End Nodes.

(** ** The graph and the driver *)

(** A compiled [StateGraph]: named nodes, the entry point, and for each
    node the node that follows it ([None] is [END]). *)
Record Graph : Type := {
  nodes : list (Agent * M unit);
  entry_point : option Agent;
  edges : list (Agent * option Agent)
}.

Definition agent_eqb (a b : Agent) : bool :=
  match a, b with
  | firecrawl, firecrawl | analysis, analysis | comparison, comparison => true
  | _, _ => false
  end.

Fixpoint assoc {B} (a : Agent) (l : list (Agent * B)) : option B :=
  match l with
  | [] => None
  | (k, v) :: l' => if agent_eqb a k then Some v else assoc a l'
  end.

Definition create_workflow (globals : list string) (env : Env) : Graph :=
  {| nodes := [(firecrawl, firecrawl_agent env);
               (analysis, analysis_agent globals env);
               (comparison, comparison_agent env)];
     entry_point := Some firecrawl;
     edges := [(firecrawl, Some analysis); (analysis, Some comparison);
               (comparison, None)] |}.

(** The channels take what a node returns.  [messages] is declared
    [Annotated[List[str], add]]: the channel becomes its old value plus
    the returned list.  The node returns the whole state, whose
    [messages] is the list it read with its own appends; when that list
    is the channel's own object the old value has those appends too.
    Every other key takes the returned value. *)
Definition channel_update (env : Env) (before returned : AgentState) : AgentState :=
  with_messages returned
    ((if shared_lists env then messages returned else messages before)
     ++ messages returned).

Definition run_node (env : Env) (a : Agent) (body : M unit) : M unit :=
  (log_node a ;;
   before <- get_board ;;
   body ;;
   returned <- get_board ;;
   modify (fun _ => channel_update env before returned))%M.

(** The steps of the compiled graph from node [cur] on; [fuel] is the
    recursion limit of LangGraph. *)
Fixpoint run_from (env : Env) (g : Graph) (fuel : nat) (cur : option Agent) : M unit :=
  match cur with
  | None => ret tt
  | Some a =>
      match fuel with
      | O => raise GraphRecursionError
      | S fuel' =>
          match assoc a (nodes g), assoc a (edges g) with
          | Some body, Some next =>
              (run_node env a body ;; run_from env g fuel' next)%M
          | _, _ => ret tt
          end
      end
  end.

Definition recursion_limit : nat := 25.

(** [app.invoke(input)] *)
Definition invoke (env : Env) (g : Graph) : M AgentState :=
  (run_from env g recursion_limit (entry_point g) ;; get_board)%M.

Definition initial_state (business mode : pystr) : AgentState :=
  {| user_input := business; analysis_mode := mode; messages := [];
     search_queries := PList []; raw_competitors := [];
     competitors := PList []; competitive_analysis := [];
     market_gaps := []; competitor_weaknesses := [];
     feature_comparison := PDict []; strategic_recommendations := [];
     agent_status := {| status_firecrawl := pending; status_analysis := pending;
                        status_comparison := pending |} |}.

(** [run_competitor_analysis(user_input, mode)] in the module as it is,
    with the outcome and the record of the run. *)
Definition run_competitor_analysis (env : Env) (business mode : pystr)
  : result AgentState * World :=
  invoke env (create_workflow main_globals env)
    (init_world (initial_state business mode)).


(** ** Reading the record of a run *)

(** The inference calls made between two points of a run, and the
    searches made between them. *)
Definition llm_calls_since (w w' : World) : list (Prompt * result pystr) :=
  skipn (length (llm_log w)) (llm_log w').

Definition searches_since (w w' : World) : list (pystr * Z * result pyval) :=
  skipn (length (search_log w)) (search_log w').

(** [all_competitors] after searches with the given outcomes, in order. *)
Definition gather (outcomes : list (result pyval)) (all_competitors : list pyval)
  : list pyval :=
  fold_left
    (fun acc r => match r with
                  | Ok search_results => harvest search_results acc
                  | Raise _ => acc
                  end)
    outcomes all_competitors.

(** The blackboard when Discovery has run to its end from [b]. *)
Definition discovered (b : AgentState) (queries : pyval) (all_competitors : list pyval)
    (ranked : pyval) (n k m : nat) : AgentState :=
  {| user_input := user_input b; analysis_mode := analysis_mode b;
     messages := messages b
                 ++ [msg_discovery_start; msg_planned n; msg_found k; msg_selected m];
     search_queries := queries; raw_competitors := all_competitors;
     competitors := ranked;
     competitive_analysis := competitive_analysis b; market_gaps := market_gaps b;
     competitor_weaknesses := competitor_weaknesses b;
     feature_comparison := feature_comparison b;
     strategic_recommendations := strategic_recommendations b;
     agent_status := status_set (agent_status b) firecrawl complete |}.

(** ** Scripted services, for concrete runs *)

(** Services that answer each kind of prompt with a fixed outcome and the
    [n]-th search with [search n]. *)
Definition scripted (plan rank narrative matrix strategy : result pystr)
    (search : nat -> result pyval) : Env :=
  {| llm_invoke := fun _ p =>
       match p with
       | planning_prompt _ => plan
       | ranking_prompt _ _ => rank
       | analysis_prompt _ _ => narrative
       | comparison_prompt _ _ => matrix
       | strategy_prompt _ _ _ => strategy
       end;
     tavily_search := fun n _ _ => search n;
     str_other := fun _ => lit "?";
     shared_lists := true |}.

Definition unused : result pystr := Raise (ServiceError (lit "unused")).

Definition four_queries : pystr :=
  lit "Here are the queries: [" ++ quoted "crm tools" ++ lit ", "
  ++ quoted "crm alternatives" ++ lit ", " ++ quoted "sales software" ++ lit ", "
  ++ quoted "new crm startups" ++ lit "]".

Definition one_result : pyval :=
  PDict [(lit "results",
          PList [PDict [(lit "title", PStr (lit "Acme CRM"));
                        (lit "url", PStr (lit "https://acme.example"));
                        (lit "content", PStr (lit "Acme sells a CRM."))]])].

Definition no_results : pyval := PDict [(lit "results", PList [])].

Definition start_world : World :=
  init_world (initial_state (lit "CRM for dentists") (lit "description")).

(** Ranking answers: prose without brackets, brackets around text that is
    no JSON, and a JSON array of plain strings. *)
Definition prose_answer : pystr := lit "I could not rank the competitors.".
Definition broken_answer : pystr := lit "[ {invalid json ]".
Definition names_answer : pystr :=
  lit "[" ++ quoted "Acme CRM" ++ lit ", " ++ quoted "Globex" ++ lit "]".

Definition env_prose : Env :=
  scripted (Ok four_queries) (Ok prose_answer) unused unused unused
    (fun _ => Ok one_result).
Definition env_broken : Env :=
  scripted (Ok four_queries) (Ok broken_answer) unused unused unused
    (fun _ => Ok one_result).
Definition env_names : Env :=
  scripted (Ok four_queries) (Ok names_answer) unused unused unused
    (fun _ => Ok one_result).

(** Planning answers with brackets around text that is no JSON. *)
Definition env_bad_plan : Env :=
  scripted (Ok (lit "[competitors, alternatives]")) (Ok names_answer)
    unused unused unused (fun _ => Ok one_result).


(** The fields of a Competitor record. *)
Definition competitor_fields : list pystr :=
  [lit "name"; lit "url"; lit "description"; lit "category";
   lit "relevanceScore"; lit "marketPosition"; lit "relevanceReason"].

(** [key in v] for a [dict]; other values have no fields. *)
Definition has_field (v : pyval) (key : pystr) : bool :=
  match v with
  | PDict d => match dict_lookup d key with Some _ => true | None => false end
  | _ => false
  end.

(** ** Sections of the narrative *)







Definition NL : pystr := [10%N].

(** A narrative whose two sections hold one short line each. *)
Definition narrative_short : pystr :=
  lit "## Market Positioning & Gaps" ++ NL ++ lit "Too short." ++ NL
  ++ lit "## Competitor Weaknesses" ++ NL ++ lit "Also short." ++ NL.


(** A narrative that names the first heading again inside its section. *)
Definition narrative_repeat : pystr :=
  lit "## Market Positioning & Gaps" ++ NL
  ++ lit "Incumbents serve large clinics only." ++ NL
  ++ lit "In short, Market Positioning & Gaps favour a focused entrant." ++ NL
  ++ lit "## Competitor Weaknesses" ++ NL.

(** Matrix answers: prose, and braces around text that is no JSON. *)
Definition broken_matrix : pystr := lit "Here it is: { features: none }".

Definition env_matrix_prose : Env :=
  scripted unused unused unused (Ok prose_answer) (Ok (lit "Do this."))
    (fun _ => Ok no_results).
Definition env_matrix_broken : Env :=
  scripted unused unused unused (Ok broken_matrix) (Ok (lit "Do this."))
    (fun _ => Ok no_results).

(** Services that answer every call well. *)
Definition env_all_fine : Env :=
  scripted (Ok four_queries) (Ok names_answer) (Ok narrative_short)
    (Ok prose_answer) (Ok (lit "Do this.")) (fun _ => Ok one_result).

(** The world in which the graph starts its first node. *)
Definition first_node_world (business mode : pystr) : World :=
  {| board := initial_state business mode; history := [initial_state business mode];
     llm_log := []; search_log := []; node_log := [firecrawl] |}.

(** The outcome of the Discovery node in a run of the driver. *)
Definition discovery_outcome (env : Env) (business mode : pystr) : result unit :=
  fst (firecrawl_agent env (first_node_world business mode)).

(** ** The course of the blackboard *)

Definition rank (s : Status) : nat :=
  match s with
  | pending => 0
  | working => 1
  | complete => 2
  end.

(** From one value of the blackboard to the next: no status moves back
    and [messages] does not get shorter. *)
Definition forward (b b' : AgentState) : Prop :=
  (forall a, rank (status_of (agent_status b) a)
             <= rank (status_of (agent_status b') a)) /\
  length (messages b) <= length (messages b').

(** A write inside node [a] after its first one: [messages] keeps what
    it had, and the statuses stay or [a] is set to [complete]. *)
Definition stage_step (a : Agent) (b b' : AgentState) : Prop :=
  (exists extra, messages b' = messages b ++ extra) /\
  (agent_status b' = agent_status b \/
   agent_status b' = status_set (agent_status b) a complete).

(** Successive values [b, h1, h2, ...] related step by step. *)
Fixpoint chain (R : AgentState -> AgentState -> Prop) (b : AgentState)
    (hs : list AgentState) : Prop :=
  match hs with
  | [] => True
  | h :: t => R b h /\ chain R h t
  end.

(** Code whose writes are all related by [R], each to the value before,
    and which starts no node. *)
Definition tame {A} (R : AgentState -> AgentState -> Prop) (m : M A) : Prop :=
  forall w r w',
    m w = (r, w') ->
    node_log w' = node_log w /\
    exists hs, history w' = history w ++ hs /\
               board w' = last hs (board w) /\
               chain R (board w) hs.

(** A history that starts at [b0], moves forward at each step, and ends
    at the present value of the blackboard. *)
Definition history_ok (b0 : AgentState) (w : World) : Prop :=
  exists hs, history w = b0 :: hs /\ chain forward b0 hs /\ last hs b0 = board w.

(** The driver over a module whose global names are [globals]. *)
Definition run_workflow (globals : list string) (env : Env) (business mode : pystr)
  : result AgentState * World :=
  invoke env (create_workflow globals env)
    (init_world (initial_state business mode)).

Definition all_complete : StatusMap :=
  {| status_firecrawl := complete; status_analysis := complete;
     status_comparison := complete |}.

(** The module with [import json] added at its top. *)
Definition repaired_globals : list string := "json" :: main_globals.

(** Services for a whole run: the matrix answer is a JSON object. *)
Definition matrix_answer : pystr :=
  lit "{" ++ quoted "features" ++ lit ": [{" ++ quoted "name" ++ lit ": "
  ++ quoted "Reminders" ++ lit "}]}".

Definition env_whole_run : Env :=
  scripted (Ok four_queries) (Ok names_answer) (Ok narrative_repeat)
    (Ok matrix_answer) (Ok (lit "Do this.")) (fun _ => Ok one_result).

(** ** Shapes *)

(** An entry of [all_competitors]: the four keys in the order of the
    source, [source] fixed, [description] cut to 200. *)
Definition raw_shape (x : pyval) : Prop :=
  exists name url description,
    x = PDict [(lit "name", name); (lit "url", url);
               (lit "description", description);
               (lit "source", PStr (lit "web_search"))] /\
    exists n, py_len description = Ok n /\ n <= 200.

(** [d.get(key, default)] on the items of a [dict]. *)
Definition get_or (d : list (pystr * pyval)) (key : pystr) (default : pyval) : pyval :=
  match dict_lookup d key with
  | Some x => x
  | None => default
  end.

(** The number of results a search outcome offers: the length of the
    list under [results] of a [dict] answer; nothing otherwise. *)
Definition offered (outcome : result pyval) : nat :=
  match outcome with
  | Ok (PDict d) =>
      match dict_lookup d (lit "results") with
      | Some (PList l) => length l
      | _ => 0
      end
  | _ => 0
  end.

(** A search answer whose second result has no text ([content] is
    [None]) between two good results. *)
Definition good_item (title : string) : pyval :=
  PDict [(lit "title", PStr (lit title)); (lit "url", PStr (lit "https://x.example"));
         (lit "content", PStr (lit "Some text."))].

Definition null_content_item : pyval :=
  PDict [(lit "title", PStr (lit "Broken")); (lit "content", PNone)].

Definition raw_of_good (title : string) : pyval :=
  PDict [(lit "name", PStr (lit title)); (lit "url", PStr (lit "https://x.example"));
         (lit "description", PStr (lit "Some text."));
         (lit "source", PStr (lit "web_search"))].

(** A write that leaves every status alone and keeps what [messages]
    had. *)
Definition quiet (b b' : AgentState) : Prop :=
  (exists extra, messages b' = messages b ++ extra) /\
  agent_status b' = agent_status b.

(** The rest of node [a] after its opening writes: writes of the stage
    only; the statuses unchanged if it raises; [a] set to [complete] if
    it returns. *)
Definition stage_tail (a : Agent) (m : M unit) : Prop :=
  tame (stage_step a) m /\
  (forall w e w', m w = (Raise e, w') ->
                  agent_status (board w') = agent_status (board w)) /\
  (forall w w', m w = (Ok tt, w') ->
                agent_status (board w')
                = status_set (agent_status (board w)) a complete).

(** The course of node [a]: it starts no node; its first write sets its
    status to [working], its second adds one message, the later ones are
    writes of the stage; it ends with its status [complete] if it
    returns and [working] if it raises. *)
Definition node_course (a : Agent) (m : M unit) : Prop :=
  forall w r w',
    m w = (r, w') ->
    node_log w' = node_log w /\
    (exists h1 h2 tl,
       history w' = history w ++ h1 :: h2 :: tl /\
       agent_status h1 = status_set (agent_status (board w)) a working /\
       messages h1 = messages (board w) /\
       agent_status h2 = agent_status h1 /\
       (exists msg, messages h2 = messages h1 ++ [msg]) /\
       board w' = last tl h2 /\
       chain (stage_step a) h2 tl) /\
    (r = Ok tt ->
     agent_status (board w') = status_set (agent_status (board w)) a complete) /\
    (forall e, r = Raise e ->
     agent_status (board w') = status_set (agent_status (board w)) a working).

(** How a node leaves the blackboard: its own status is [complete] if it
    returned and [working] if it raised, the other statuses are as they
    were, and [messages] is what it was followed by at least one new
    message. *)
Definition node_outcome (a : Agent) (w : World) (r : result unit) (w' : World) : Prop :=
  agent_status (board w')
  = status_set (agent_status (board w)) a
      (match r with Ok _ => complete | Raise _ => working end) /\
  (exists msg extra, messages (board w') = messages (board w) ++ msg :: extra) /\
  node_log w' = node_log w.
(** * Properties *)

Arguments lit : simpl never.
Arguments str_of_nat : simpl never.

(** ** Strings *)

Lemma startswith_app (p s : pystr) : startswith p (p ++ s) = true.
Proof.
  induction p as [|x p IH]; simpl; [reflexivity|].
  now rewrite N.eqb_refl, IH.
Qed.

Lemma startswith_spec (p s : pystr) :
  startswith p s = true <-> exists t, s = p ++ t.
Proof.
  split.
  - revert s. induction p as [|x p IH]; intros s H.
    + now exists s.
    + destruct s as [|y s]; simpl in H; [discriminate|].
      apply andb_true_iff in H as [Hxy Hp].
      apply N.eqb_eq in Hxy. subst y.
      destruct (IH _ Hp) as [t ->]. now exists t.
  - intros [t ->]. apply startswith_app.
Qed.

Lemma skipn_length_app {A} (p s : list A) : skipn (length p) (p ++ s) = s.
Proof. induction p; simpl; auto. Qed.

(** [partition] cuts at an occurrence of the separator. *)
Lemma partition_Some (sep s b a : pystr) :
  partition sep s = Some (b, a) -> s = b ++ sep ++ a.
Proof.
  revert b. induction s as [|c s IH]; intros b H.
  - simpl in H. destruct (startswith sep []) eqn:E; [|discriminate].
    inversion H; subst. apply startswith_spec in E as [t E].
    destruct sep; [reflexivity | discriminate].
  - cbn [partition] in H. destruct (startswith sep (c :: s)) eqn:E.
    + inversion H; subst. apply startswith_spec in E as [t E].
      rewrite E. now rewrite skipn_length_app.
    + destruct (partition sep s) as [[b' a']|]; [|discriminate].
      inversion H; subst. simpl. f_equal. now apply IH.
Qed.

(** [sub in s] holds exactly when [partition] finds a cut. *)
Lemma str_in_partition (sub s : pystr) :
  str_in sub s = true <-> exists b a, partition sub s = Some (b, a).
Proof.
  induction s as [|c s IH].
  - simpl. destruct (startswith sub []); simpl.
    + split; eauto.
    + split; [discriminate | intros (b & a & H); discriminate].
  - cbn [str_in partition]. destruct (startswith sub (c :: s)); simpl.
    + split; eauto.
    + rewrite IH. split.
      * intros (b & a & ->). eauto.
      * intros (b & a & H). destruct (partition sub s) as [[b' a']|]; [eauto | discriminate].
Qed.

Lemma str_in_spec (sub s : pystr) :
  str_in sub s = true <-> exists b a, s = b ++ sub ++ a.
Proof.
  split.
  - intros H. apply str_in_partition in H as (b & a & H).
    exists b, a. now apply partition_Some.
  - intros (b & a & ->). induction b as [|c b IH].
    + simpl. destruct (sub ++ a) eqn:E; simpl; rewrite <- ?E;
        now rewrite startswith_app.
    + simpl. rewrite IH. apply orb_true_r.
Qed.




(** ** [re.search] *)

Lemma after_first_spec (o : pychar) (s rest : pystr) :
  after_first o s = Some rest <->
  exists pre, s = pre ++ o :: rest /\ ~ In o pre.
Proof.
  split.
  - revert rest. induction s as [|x s IH]; intros rest H; [discriminate|].
    simpl in H. destruct (N.eqb x o) eqn:E.
    + apply N.eqb_eq in E. inversion H; subst. exists []. auto.
    + destruct (IH _ H) as (pre & -> & Hn). exists (x :: pre). split; [reflexivity|].
      intros [->|Hi]; [now rewrite N.eqb_refl in E | auto].
  - intros (pre & -> & Hn). induction pre as [|x pre IH]; simpl.
    + now rewrite N.eqb_refl.
    + destruct (N.eqb x o) eqn:E.
      * apply N.eqb_eq in E. subst. exfalso. apply Hn. now left.
      * apply IH. intros Hi. apply Hn. now right.
Qed.

Lemma upto_last_None (c : pychar) (s : pystr) :
  upto_last c s = None <-> ~ In c s.
Proof.
  induction s as [|x s IH]; simpl.
  - tauto.
  - destruct (upto_last c s).
    + split; [discriminate|]. intros H. exfalso.
      assert (None = None :> option pystr) as E by reflexivity.
      destruct IH as [_ IH]. 
      assert (~ In c s) as Hn by (intros Hi; apply H; now right).
      specialize (IH Hn). discriminate.
    + destruct (N.eqb x c) eqn:E.
      * apply N.eqb_eq in E. subst. split; [discriminate|]. intros H. exfalso. apply H. now left.
      * split; [|reflexivity]. intros _ [->|Hi]; [now rewrite N.eqb_refl in E|].
        now apply IH.
Qed.

Lemma upto_last_spec (c : pychar) (s body : pystr) :
  upto_last c s = Some body <->
  exists mid post, s = mid ++ c :: post /\ body = mid ++ [c] /\ ~ In c post.
Proof.
  split.
  - revert body. induction s as [|x s IH]; intros body H; [discriminate|].
    simpl in H. destruct (upto_last c s) as [r|] eqn:E.
    + inversion H; subst. destruct (IH _ eq_refl) as (mid & post & -> & -> & Hn).
      exists (x :: mid), post. auto.
    + destruct (N.eqb x c) eqn:Ex; [|discriminate].
      apply N.eqb_eq in Ex. inversion H; subst.
      exists [], s. repeat split. now apply upto_last_None.
  - intros (mid & post & -> & -> & Hn). induction mid as [|x mid IH]; simpl.
    + apply upto_last_None in Hn. rewrite Hn. now rewrite N.eqb_refl.
    + now rewrite IH.
Qed.

(** The match of [o.*c]: it starts at the first [o] of the text and ends
    at the last [c] of the text. *)
Lemma re_search_spec (o c : pychar) (s group : pystr) :
  re_search o c s = Some group <->
  exists pre mid post,
    s = pre ++ group ++ post /\ group = o :: mid ++ [c] /\
    ~ In o pre /\ ~ In c post.
Proof.
  unfold re_search. split.
  - destruct (after_first o s) as [rest|] eqn:E1; [|discriminate].
    destruct (upto_last c rest) as [body|] eqn:E2; [|discriminate].
    intros H. inversion H; subst.
    apply after_first_spec in E1 as (pre & -> & Hn1).
    apply upto_last_spec in E2 as (mid & post & -> & -> & Hn2).
    exists pre, mid, post. repeat split; auto.
    simpl. now rewrite <- app_assoc.
  - intros (pre & mid & post & -> & -> & Hn1 & Hn2).
    assert (after_first o (pre ++ (o :: mid ++ [c]) ++ post)
            = Some (mid ++ c :: post)) as ->.
    { apply after_first_spec. exists pre. split; auto.
      simpl. now rewrite <- app_assoc. }
    assert (upto_last c (mid ++ c :: post) = Some (mid ++ [c])) as ->.
    { apply upto_last_spec. exists mid, post. auto. }
    reflexivity.
Qed.

(** No match exactly when no [c] follows the first [o]. *)
Lemma re_search_None (o c : pychar) (s : pystr) :
  re_search o c s = None <->
  (~ In o s \/ exists pre rest, s = pre ++ o :: rest /\ ~ In o pre /\ ~ In c rest).
Proof.
  unfold re_search. destruct (after_first o s) as [rest|] eqn:E1.
  - apply after_first_spec in E1 as (pre & -> & Hn).
    destruct (upto_last c rest) as [body|] eqn:E2.
    + split; [discriminate|]. intros [H|(pre' & rest' & E & Hn1 & Hn2)].
      * exfalso. apply H. apply in_or_app. right. now left.
      * exfalso.
        assert (after_first o (pre ++ o :: rest) = Some rest') as A1
          by (rewrite E; apply after_first_spec; eauto).
        assert (after_first o (pre ++ o :: rest) = Some rest) as A2
          by (apply after_first_spec; eauto).
        rewrite A1 in A2. inversion A2; subst.
        apply upto_last_None in Hn2. congruence.
    + split; [|reflexivity]. intros _. right. exists pre, rest.
      repeat split; auto. now apply upto_last_None.
  - split; [|reflexivity]. intros _. left. intros Hi.
    apply in_split in Hi as (l1 & l2 & ->).
    assert (exists rest, after_first o (l1 ++ o :: l2) = Some rest) as [rest A].
    { clear E1. induction l1 as [|x l1 IH]; simpl.
      - rewrite N.eqb_refl. eauto.
      - destruct (N.eqb x o); eauto. }
    congruence.
Qed.

(** ** [json.loads] *)

Example json_loads_queries :
  json_loads (lit "[" ++ quoted "crm tools" ++ lit ", " ++ quoted "crm alternatives" ++ lit "]")
  = Ok (PList [PStr (lit "crm tools"); PStr (lit "crm alternatives")]).
Proof. vm_compute. reflexivity. Qed.

Example json_loads_object :
  json_loads (lit "{" ++ quoted "a" ++ lit ": [1, -2.5e3, null, true], "
              ++ quoted "b" ++ lit ": {}, " ++ quoted "a" ++ lit ": " ++ quoted "x\n\u00e9" ++ lit " } ")
  = Ok (PDict [(lit "a", PStr [120; 10; 233]%N); (lit "b", PDict [])]).
Proof. vm_compute. reflexivity. Qed.

Example json_loads_rejects :
  json_loads (lit "[competitors, alternatives]") = Raise JSONDecodeError
  /\ json_loads (lit "[1, 2,]") = Raise JSONDecodeError
  /\ json_loads (lit "[1] x") = Raise JSONDecodeError
  /\ json_loads (lit "{" ++ quoted "a" ++ lit " 1}") = Raise JSONDecodeError.
Proof. vm_compute. repeat split. Qed.

Lemma array_items_list (fuel : nat) :
  forall s acc v r, array_items fuel s acc = Ok (v, r) -> exists l, v = PList l.
Proof.
  induction fuel as [|f IH]; intros s acc v r H; [discriminate|].
  cbn [array_items] in H.
  destruct (scan_once f s) as [[v0 r0]|e]; [|discriminate].
  destruct (skip_ws r0) as [|c r1]; [discriminate|].
  destruct (c =? RBRACKET)%N.
  - inversion H; subst. eauto.
  - destruct (c =? COMMA)%N; [eauto | discriminate].
Qed.

Lemma object_items_dict (fuel : nat) :
  forall s acc v r, object_items fuel s acc = Ok (v, r) -> exists d, v = PDict d.
Proof.
  induction fuel as [|f IH]; intros s acc v r H; [discriminate|].
  cbn [object_items] in H.
  destruct (scanstring s) as [[key r0]|e]; [|discriminate].
  destruct (skip_ws r0) as [|c r1]; [discriminate|].
  destruct (c =? COLON)%N; [|discriminate].
  destruct (scan_once f (skip_ws r1)) as [[v0 r2]|e]; [|discriminate].
  destruct (skip_ws r2) as [|c2 r3]; [discriminate|].
  destruct (c2 =? RBRACE)%N.
  - inversion H; subst. eauto.
  - destruct (c2 =? COMMA)%N; [|discriminate].
    destruct (skip_ws r3) as [|c3 r4]; [discriminate|].
    destruct (c3 =? QUOTE)%N; [eauto | discriminate].
Qed.

(** A text that opens with a square bracket decodes to a [list], if to
    anything. *)
Lemma json_loads_bracket (body : pystr) (v : pyval) :
  json_loads (LBRACKET :: body) = Ok v -> exists l, v = PList l.
Proof.
  unfold json_loads.
  replace (2 * length (LBRACKET :: body) + 1) with (S (2 * length (LBRACKET :: body))) by lia.
  cbn -[Nat.mul array_items object_items scanstring skip_ws].
  change (skip_ws (LBRACKET :: body)) with (LBRACKET :: body).
  cbn -[Nat.mul array_items object_items scanstring skip_ws].
  destruct (skip_ws body) as [|c1 r]; [discriminate|].
  destruct (c1 =? RBRACKET)%N.
  - destruct (skip_ws r); [|discriminate]. intros H; inversion H; eauto.
  - destruct (array_items _ _ _) as [[v0 r0]|e] eqn:E; [|discriminate].
    destruct (skip_ws r0); [|discriminate]. intros H; inversion H; subst.
    eapply array_items_list; eauto.
Qed.

(** A text that opens with a brace decodes to a [dict], if to anything. *)
Lemma json_loads_brace (body : pystr) (v : pyval) :
  json_loads (LBRACE :: body) = Ok v -> exists d, v = PDict d.
Proof.
  unfold json_loads.
  replace (2 * length (LBRACE :: body) + 1) with (S (2 * length (LBRACE :: body))) by lia.
  cbn -[Nat.mul array_items object_items scanstring skip_ws].
  change (skip_ws (LBRACE :: body)) with (LBRACE :: body).
  cbn -[Nat.mul array_items object_items scanstring skip_ws].
  destruct (skip_ws body) as [|c1 r]; [discriminate|].
  destruct (c1 =? RBRACE)%N.
  - destruct (skip_ws r); [|discriminate]. intros H; inversion H; eauto.
  - destruct (c1 =? QUOTE)%N; [|discriminate].
    destruct (object_items _ _ _) as [[v0 r0]|e] eqn:E; [|discriminate].
    destruct (skip_ws r0); [|discriminate]. intros H; inversion H; subst.
    eapply object_items_dict; eauto.
Qed.

(** *** The fuel of the decoder is enough *)

Lemma skip_ws_length (s : pystr) : length (skip_ws s) <= length s.
Proof.
  induction s as [|c s IH]; simpl; [lia|].
  destruct (is_ws c); simpl; lia.
Qed.

Lemma skipn_startswith_length (p s : pystr) :
  p <> [] -> startswith p s = true -> length (skipn (length p) s) < length s.
Proof.
  intros Hp H. apply startswith_spec in H as [t ->].
  rewrite skipn_length_app, length_app. destruct p; [congruence | simpl; lia].
Qed.

Lemma scanstring_from_shorter (s : pystr) :
  forall pend acc x r,
    scanstring_from pend acc s = Ok (x, r) -> length r < length s.
Proof.
  assert (exists n, length s <= n) as [n Hle] by (exists (length s); lia).
  revert s Hle.
  induction n as [|n IHn]; intros s Hle pend acc x r H;
    (destruct s as [|c t]; [discriminate|]); [simpl in Hle; lia|].
  assert (forall s', length s' < length (c :: t) ->
            forall p a x r, scanstring_from p a s' = Ok (x, r) -> length r < length s')
    as IH by (intros s' Hs'; apply IHn; simpl in *; lia).
  cbn [scanstring_from] in H.
  destruct (c =? QUOTE)%N.
  { inversion H; subst. simpl. lia. }
  destruct (c =? BACKSLASH)%N.
  - destruct t as [|e t1]; [discriminate|].
    destruct (e =? 117)%N.
    + destruct t1 as [|h1 [|h2 [|h3 [|h4 t2]]]]; try discriminate.
      destruct (hex4 h1 h2 h3 h4) as [u|]; [|discriminate].
      assert (forall p a, scanstring_from p a t2 = Ok (x, r) -> length r < length t2)
        as IH2 by (intros p a; apply IH; simpl; lia).
      destruct pend as [hi|].
      * destruct (is_low_surrogate u); [|destruct (is_high_surrogate u)];
          apply IH2 in H; simpl; lia.
      * destruct (is_high_surrogate u); apply IH2 in H; simpl; lia.
    + destruct (unescape e); [|discriminate].
      apply IH in H; simpl in *; lia.
  - destruct (c <? 32)%N; [discriminate|].
    apply IH in H; simpl in *; lia.
Qed.

Lemma scanstring_from_error (s : pystr) :
  forall pend acc e, scanstring_from pend acc s = Raise e -> e = JSONDecodeError.
Proof.
  assert (exists n, length s <= n) as [n Hle] by (exists (length s); lia).
  revert s Hle.
  induction n as [|n IHn]; intros s Hle pend acc e0 H;
    (destruct s as [|c t]; [now inversion H|]); [simpl in Hle; lia|].
  assert (forall s', length s' < length (c :: t) ->
            forall p a e, scanstring_from p a s' = Raise e -> e = JSONDecodeError)
    as IH by (intros s' Hs'; apply IHn; simpl in *; lia).
  cbn [scanstring_from] in H.
  destruct (c =? QUOTE)%N; [discriminate|].
  destruct (c =? BACKSLASH)%N.
  - destruct t as [|e t1]; [now inversion H|].
    destruct (e =? 117)%N.
    + destruct t1 as [|h1 [|h2 [|h3 [|h4 t2]]]]; try (now inversion H).
      destruct (hex4 h1 h2 h3 h4) as [u|]; [|now inversion H].
      assert (forall p a, scanstring_from p a t2 = Raise e0 -> e0 = JSONDecodeError)
        as IH2 by (intros p a; apply IH; simpl; lia).
      destruct pend as [hi|].
      * destruct (is_low_surrogate u); [|destruct (is_high_surrogate u)]; eauto.
      * destruct (is_high_surrogate u); eauto.
    + destruct (unescape e); [|now inversion H].
      eapply IH; [|exact H]. simpl; lia.
  - destruct (c <? 32)%N; [now inversion H|].
    eapply IH; [|exact H]. simpl; lia.
Qed.

Lemma span_digits_length (s : pystr) :
  length (snd (span_digits s)) <= length s.
Proof.
  induction s as [|c s IH]; simpl; [lia|].
  destruct (is_digit c); [|simpl; lia].
  destruct (span_digits s) as [ds r]. simpl in *. lia.
Qed.

Lemma match_frac_length (s : pystr) : length (snd (match_frac s)) <= length s.
Proof.
  unfold match_frac. destruct s as [|dot t]; [simpl; lia|].
  destruct (dot =? 46)%N; [|simpl; lia].
  pose proof (span_digits_length t) as H.
  destruct (span_digits t) as [[|d ds] r]; simpl in *; lia.
Qed.

Lemma match_exp_length (s : pystr) : length (snd (match_exp s)) <= length s.
Proof.
  unfold match_exp. destruct s as [|e t]; [simpl; lia|].
  destruct ((e =? 101) || (e =? 69))%N; [|simpl; lia].
  destruct t as [|sg t'].
  - simpl. lia.
  - destruct ((sg =? 43) || (sg =? 45))%N.
    + pose proof (span_digits_length t') as H.
      destruct (span_digits t') as [[|d ds] r]; simpl in *; lia.
    + pose proof (span_digits_length (sg :: t')) as H.
      destruct (span_digits (sg :: t')) as [[|d ds] r]; simpl in *; lia.
Qed.

Lemma match_number_shorter (s : pystr) (v : pyval) (r : pystr) :
  match_number s = Some (v, r) -> length r < length s.
Proof.
  unfold match_number.
  set (ns := match s with
             | [] => (false, s)
             | c :: t => if (c =? MINUS)%N then (true, t) else (false, s)
             end).
  assert (length (snd ns) <= length s) as Hns.
  { subst ns. destruct s as [|c t]; [simpl; lia|].
    destruct (c =? MINUS)%N; simpl; lia. }
  destruct ns as [neg s1]. cbn [snd] in Hns.
  assert (forall ip r1, match_int_part s1 = Some (ip, r1) -> length r1 < length s1)
    as Hip.
  { intros ip r1. unfold match_int_part. destruct s1 as [|c t]; [discriminate|].
    destruct (c =? 48)%N; [intros H; inversion H; simpl; lia|].
    destruct (is_digit c); [|discriminate].
    pose proof (span_digits_length t) as Hs.
    destruct (span_digits t) as [ds r0]. intros H; inversion H; subst.
    simpl in *. lia. }
  destruct (match_int_part s1) as [[ip r1]|]; [|discriminate].
  specialize (Hip _ _ eq_refl).
  pose proof (match_frac_length r1) as Hf.
  destruct (match_frac r1) as [frac r2]. cbn [snd] in Hf.
  pose proof (match_exp_length r2) as He.
  destruct (match_exp r2) as [ex r3]. cbn [snd] in He.
  intros H. assert (r = r3) as -> by (destruct frac, ex; now inversion H).
  lia.
Qed.

Lemma scan_atom_shorter (s : pystr) (v : pyval) (r : pystr) :
  scan_atom s = Ok (v, r) -> length r < length s.
Proof.
  unfold scan_atom.
  assert (forall (name : string) (n : nat),
            n = length (lit name) -> lit name <> [] ->
            startswith (lit name) s = true -> length (skipn n s) < length s) as Hlit.
  { intros name n -> Hne Hst. now apply skipn_startswith_length. }
  destruct (startswith (lit "null") s) eqn:E1.
  { intros H; injection H as _ <-. apply (Hlit "null" 4); auto. vm_compute; discriminate. }
  destruct (startswith (lit "true") s) eqn:E2.
  { intros H; injection H as _ <-. apply (Hlit "true" 4); auto. vm_compute; discriminate. }
  destruct (startswith (lit "false") s) eqn:E3.
  { intros H; injection H as _ <-. apply (Hlit "false" 5); auto. vm_compute; discriminate. }
  destruct (startswith (lit "NaN") s) eqn:E4.
  { intros H; injection H as _ <-. apply (Hlit "NaN" 3); auto. vm_compute; discriminate. }
  destruct (startswith (lit "Infinity") s) eqn:E5.
  { intros H; injection H as _ <-. apply (Hlit "Infinity" 8); auto. vm_compute; discriminate. }
  destruct (startswith (lit "-Infinity") s) eqn:E6.
  { intros H; injection H as _ <-. apply (Hlit "-Infinity" 9); auto. vm_compute; discriminate. }
  destruct (match_number s) as [[v0 r0]|] eqn:E; [|discriminate].
  intros H; inversion H; subst. now apply match_number_shorter in E.
Qed.

Lemma scan_atom_error (s : pystr) (e : exn) :
  scan_atom s = Raise e -> e = JSONDecodeError.
Proof.
  unfold scan_atom.
  repeat match goal with
         | |- context [if ?b then _ else _] => destruct b; [discriminate|]
         end.
  destruct (match_number s); [discriminate|]. now inversion 1.
Qed.

(** Every value read takes at least one character. *)
Lemma scan_shorter (fuel : nat) :
  (forall s v r, scan_once fuel s = Ok (v, r) -> length r < length s) /\
  (forall s acc v r, array_items fuel s acc = Ok (v, r) -> length r < length s) /\
  (forall s acc v r, object_items fuel s acc = Ok (v, r) -> length r < length s).
Proof.
  induction fuel as [|f (IHs & IHa & IHo)]; [repeat split; discriminate|].
  repeat split.
  - intros s v r H. cbn [scan_once] in H. destruct s as [|c t]; [discriminate|].
    destruct (c =? QUOTE)%N.
    { unfold scanstring in H.
      destruct (scanstring_from None [] t) as [[str r0]|e] eqn:E; [|discriminate].
      inversion H; subst. apply scanstring_from_shorter in E. simpl; lia. }
    destruct (c =? LBRACE)%N.
    { pose proof (skip_ws_length t) as Hw.
      destruct (skip_ws t) as [|c1 r0]; [discriminate|].
      destruct (c1 =? RBRACE)%N; [inversion H; subst; simpl in *; lia|].
      destruct (c1 =? QUOTE)%N; [|discriminate].
      apply IHo in H. simpl in *. lia. }
    destruct (c =? LBRACKET)%N.
    { pose proof (skip_ws_length t) as Hw.
      destruct (skip_ws t) as [|c1 r0]; [discriminate|].
      destruct (c1 =? RBRACKET)%N; [inversion H; subst; simpl in *; lia|].
      apply IHa in H. simpl in *. lia. }
    now apply scan_atom_shorter in H.
  - intros s acc v r H. cbn [array_items] in H.
    destruct (scan_once f s) as [[v0 r0]|e] eqn:E; [|discriminate].
    apply IHs in E. pose proof (skip_ws_length r0) as Hw.
    destruct (skip_ws r0) as [|c r1]; [discriminate|].
    destruct (c =? RBRACKET)%N; [inversion H; subst; simpl in *; lia|].
    destruct (c =? COMMA)%N; [|discriminate].
    apply IHa in H. pose proof (skip_ws_length r1). simpl in *. lia.
  - intros s acc v r H. cbn [object_items] in H. unfold scanstring in H.
    destruct (scanstring_from None [] s) as [[key r0]|e] eqn:E; [|discriminate].
    apply scanstring_from_shorter in E. pose proof (skip_ws_length r0) as Hw.
    destruct (skip_ws r0) as [|c r1]; [discriminate|].
    destruct (c =? COLON)%N; [|discriminate].
    destruct (scan_once f (skip_ws r1)) as [[v0 r2]|e] eqn:E2; [|discriminate].
    apply IHs in E2. pose proof (skip_ws_length r1) as Hw1.
    pose proof (skip_ws_length r2) as Hw2.
    destruct (skip_ws r2) as [|c2 r3]; [discriminate|].
    destruct (c2 =? RBRACE)%N; [inversion H; subst; simpl in *; lia|].
    destruct (c2 =? COMMA)%N; [|discriminate].
    pose proof (skip_ws_length r3) as Hw3.
    destruct (skip_ws r3) as [|c3 r4]; [discriminate|].
    destruct (c3 =? QUOTE)%N; [|discriminate].
    apply IHo in H. simpl in *. lia.
Qed.

(** With two units of fuel for each character the decoder never stops
    for lack of fuel. *)
Lemma scan_fuel (fuel : nat) :
  (forall s, 2 * length s + 1 <= fuel -> scan_once fuel s <> Raise RecursionError) /\
  (forall s acc, 2 * length s + 2 <= fuel ->
                 array_items fuel s acc <> Raise RecursionError) /\
  (forall s acc, 2 * length s + 2 <= fuel ->
                 object_items fuel s acc <> Raise RecursionError).
Proof.
  induction fuel as [|f (IHs & IHa & IHo)]; [repeat split; intros; lia|].
  repeat split.
  - intros s Hf. cbn [scan_once]. destruct s as [|c t]; [discriminate|].
    simpl in Hf.
    destruct (c =? QUOTE)%N.
    { unfold scanstring.
      destruct (scanstring_from None [] t) as [[str r0]|e] eqn:E; [discriminate|].
      apply scanstring_from_error in E. subst. discriminate. }
    destruct (c =? LBRACE)%N.
    { pose proof (skip_ws_length t) as Hw.
      destruct (skip_ws t) as [|c1 r0]; [discriminate|].
      destruct (c1 =? RBRACE)%N; [discriminate|].
      destruct (c1 =? QUOTE)%N; [|discriminate].
      apply IHo. simpl in *. lia. }
    destruct (c =? LBRACKET)%N.
    { pose proof (skip_ws_length t) as Hw.
      destruct (skip_ws t) as [|c1 r0]; [discriminate|].
      destruct (c1 =? RBRACKET)%N; [discriminate|].
      apply IHa. simpl in *. lia. }
    intros H. apply scan_atom_error in H. discriminate.
  - intros s acc Hf. cbn [array_items].
    destruct (scan_once f s) as [[v0 r0]|e] eqn:E.
    + apply (proj1 (scan_shorter f)) in E. pose proof (skip_ws_length r0) as Hw.
      destruct (skip_ws r0) as [|c r1]; [discriminate|].
      destruct (c =? RBRACKET)%N; [discriminate|].
      destruct (c =? COMMA)%N; [|discriminate].
      apply IHa. pose proof (skip_ws_length r1). simpl in *. lia.
    + intros H. inversion H; subst. revert E. apply IHs. lia.
  - intros s acc Hf. cbn [object_items]. unfold scanstring.
    destruct (scanstring_from None [] s) as [[key r0]|e] eqn:E.
    2:{ apply scanstring_from_error in E. subst. discriminate. }
    apply scanstring_from_shorter in E. pose proof (skip_ws_length r0) as Hw.
    destruct (skip_ws r0) as [|c r1]; [discriminate|].
    destruct (c =? COLON)%N; [|discriminate].
    pose proof (skip_ws_length r1) as Hw1.
    destruct (scan_once f (skip_ws r1)) as [[v0 r2]|e] eqn:E2.
    + apply (proj1 (scan_shorter f)) in E2.
      pose proof (skip_ws_length r2) as Hw2.
      destruct (skip_ws r2) as [|c2 r3]; [discriminate|].
      destruct (c2 =? RBRACE)%N; [discriminate|].
      destruct (c2 =? COMMA)%N; [|discriminate].
      pose proof (skip_ws_length r3) as Hw3.
      destruct (skip_ws r3) as [|c3 r4]; [discriminate|].
      destruct (c3 =? QUOTE)%N; [|discriminate].
      apply IHo. simpl in *. lia.
    + intros H. inversion H; subst. revert E2. apply IHs. simpl in *. lia.
Qed.

(** [json_loads] never stops for lack of fuel: it returns a value or
    raises [JSONDecodeError] on the merits of the text. *)
Lemma json_loads_fuel (s : pystr) : json_loads s <> Raise RecursionError.
Proof.
  unfold json_loads.
  assert (match scan_once (2 * length s + 1) (skip_ws s) with
          | Ok (v, r) => match skip_ws r with
                         | [] => Ok v
                         | _ :: _ => Raise JSONDecodeError
                         end
          | Raise e => Raise e
          end <> Raise RecursionError) as H.
  { destruct (scan_once (2 * length s + 1) (skip_ws s)) as [[v r]|e] eqn:E.
    - destruct (skip_ws r); discriminate.
    - intros H. inversion H; subst. revert E.
      apply (proj1 (scan_fuel _)). pose proof (skip_ws_length s). lia. }
  destruct s as [|c t]; [exact H|].
  destruct c as [|p]; [exact H|].
  repeat (destruct p as [p|p|]; try exact H); discriminate.
Qed.

Lemma re_search_head (o c : pychar) (s group : pystr) :
  re_search o c s = Some group -> exists body, group = o :: body.
Proof.
  unfold re_search. destruct (after_first o s); [|discriminate].
  destruct (upto_last c _); [|discriminate].
  intros H; inversion H; eauto.
Qed.

(** The planned queries are a [list] whenever planning yields any. *)
Lemma plan_queries_list (content : pystr) (queries : pyval) :
  plan_queries content = Ok queries -> exists qs, queries = PList qs.
Proof.
  unfold plan_queries.
  destruct (re_search LBRACKET RBRACKET content) as [group|] eqn:E.
  - apply re_search_head in E as [body ->]. apply json_loads_bracket.
  - intros H; inversion H. unfold generic_queries. eauto.
Qed.

(** The ranked competitors are a [list] in every case. *)
Lemma ranked_list (content : pystr) :
  exists l, parse_or_fallback LBRACKET RBRACKET content
              (PList [placeholder_competitor]) (PList []) = PList l.
Proof.
  unfold parse_or_fallback.
  destruct (re_search LBRACKET RBRACKET content) as [group|] eqn:E; [|eauto].
  apply re_search_head in E as [body ->].
  destruct (json_loads (LBRACKET :: body)) eqn:J; [|eauto].
  now apply json_loads_bracket in J.
Qed.

(** The feature matrix is a [dict] in every case. *)
Lemma matrix_dict (content : pystr) :
  exists d, parse_or_fallback LBRACE RBRACE content
              placeholder_matrix empty_matrix = PDict d.
Proof.
  unfold parse_or_fallback.
  destruct (re_search LBRACE RBRACE content) as [group|] eqn:E;
    [|unfold empty_matrix; eauto].
  apply re_search_head in E as [body ->].
  destruct (json_loads (LBRACE :: body)) eqn:J; [|unfold placeholder_matrix; eauto].
  now apply json_loads_brace in J.
Qed.

(** ** Runs of the Discovery node *)

Lemma search_loop_run (env : Env) (business : pystr) (qs : list pyval) :
  forall all_competitors w,
  exists evs,
    search_loop env business qs all_competitors w
    = (Ok (gather (map snd evs) all_competitors),
       {| board := board w; history := history w; llm_log := llm_log w;
          search_log := search_log w ++ evs; node_log := node_log w |})
    /\ map fst evs = map (fun q => (search_text env q business, 3%Z)) qs.
Proof.
  induction qs as [|q qs IH]; intros all w.
  - exists []. simpl. rewrite app_nil_r. destruct w; auto.
  - cbn [search_loop bind search_attempt].
    match goal with
    | |- context [search_loop env business qs ?a ?w1] =>
        destruct (IH a w1) as (evs & E & Hm)
    end.
    cbn [board history llm_log search_log node_log] in E.
    exists ((search_text env q business, 3%Z,
             tavily_search env (length (search_log w)) (search_text env q business) 3%Z)
            :: evs).
    rewrite E. split.
    + rewrite <- app_assoc. reflexivity.
    + simpl. now rewrite Hm.
Qed.

Lemma bind_unfold {A B} (m : M A) (f : A -> M B) (w : World) :
  bind m f w = match m w with
               | (Ok a, w') => f a w'
               | (Raise e, w') => (Raise e, w')
               end.
Proof. reflexivity. Qed.

Ltac run_search_loop H :=
  rewrite bind_unfold in H;
  match type of H with
  | context [search_loop ?e ?b ?q ?a ?W] =>
      let evs := fresh "evs" in
      let E := fresh "E" in
      let Hm := fresh "Hm" in
      destruct (search_loop_run e b q a W) as (evs & E & Hm);
      rewrite E in H; clear E
  end.

Ltac run_cbn H :=
  cbn [bind get_board set_status append_message modify llm_call lift ret raise
       board history llm_log search_log node_log] in H.

Ltac run_cbn_goal :=
  cbn [bind get_board set_status append_message modify llm_call lift ret raise
       board history llm_log search_log node_log].

Ltac frame_status s :=
  split; [reflexivity | exists s; split; [reflexivity | intros; congruence]].

(** What a run of Discovery amounts to: it stops in planning, after one
    inference call and no search, or it makes its searches and its second
    inference call, and ends well exactly when that call returns. *)
Lemma firecrawl_agent_run (env : Env) (w w' : World) (r : result unit) :
  firecrawl_agent env w = (r, w') ->
  let business := user_input (board w) in
  let r0 := llm_invoke env (length (llm_log w)) (planning_prompt business) in
  (node_log w' = node_log w /\
   exists s, agent_status (board w') = status_set (agent_status (board w)) firecrawl s
             /\ (r = Ok tt -> s = complete)) /\
  ((llm_calls_since w w' = [(planning_prompt business, r0)] /\
    searches_since w w' = [] /\
    exists e, r = Raise e /\
              (r0 = Raise e \/ exists c0, r0 = Ok c0 /\ plan_queries c0 = Raise e))
   \/
   (exists c0 qs evs r1,
      r0 = Ok c0 /\ plan_queries c0 = Ok (PList qs) /\
      searches_since w w' = evs /\
      map fst evs = map (fun q => (search_text env q business, 3%Z)) (firstn 3 qs) /\
      let all_competitors := gather (map snd evs) [] in
      llm_calls_since w w'
      = [(planning_prompt business, r0);
         (ranking_prompt business (firstn 10 all_competitors), r1)] /\
      search_queries (board w') = PList qs /\
      raw_competitors (board w') = all_competitors /\
      match r1 with
      | Raise e => r = Raise e
      | Ok content =>
          exists l,
            parse_or_fallback LBRACKET RBRACKET content
              (PList [placeholder_competitor]) (PList []) = PList l /\
            r = Ok tt /\
            board w' = discovered (board w) (PList qs) all_competitors (PList l)
                         (length qs) (length all_competitors) (length l)
      end)).
Proof.
  destruct w as [b h ll sl nl]. unfold firecrawl_agent, llm_calls_since, searches_since.
  intros Hrun. run_cbn Hrun. cbn [board llm_log search_log node_log].
  destruct (llm_invoke env (length ll) (planning_prompt (user_input b))) as [c0|e] eqn:E0.
  2:{ inversion Hrun; subst; clear Hrun. cbn [board llm_log search_log node_log].
      split; [frame_status working|]. left. rewrite skipn_length_app, skipn_all.
      repeat split. exists e. auto. }
  run_cbn Hrun.
  destruct (plan_queries c0) as [queries|e] eqn:E1.
  2:{ inversion Hrun; subst; clear Hrun. cbn [board llm_log search_log node_log].
      split; [frame_status working|]. left. rewrite skipn_length_app, skipn_all.
      repeat split. exists e. split; [reflexivity|]. right. eauto. }
  destruct (plan_queries_list _ E1) as [qs ->].
  run_cbn Hrun. cbn [py_len py_slice py_iter] in Hrun. run_cbn Hrun.
  run_search_loop Hrun. run_cbn Hrun.
  match type of Hrun with
  | context [llm_invoke env ?n ?p] => destruct (llm_invoke env n p) as [content|e] eqn:E2
  end.
  2:{ inversion Hrun; subst; clear Hrun. cbn [board llm_log search_log node_log].
      split; [frame_status working|]. right. exists c0, qs, evs, (Raise e).
      rewrite !skipn_length_app. rewrite <- app_assoc, skipn_length_app.
      repeat split; auto. }
  run_cbn Hrun.
  destruct (ranked_list content) as [l El]. rewrite El in Hrun.
  cbn [py_len] in Hrun. run_cbn Hrun.
  inversion Hrun; subst; clear Hrun. cbn [board llm_log search_log node_log].
  split; [frame_status complete|]. right. exists c0, qs, evs, (Ok content).
  rewrite !skipn_length_app. rewrite <- app_assoc, skipn_length_app.
  repeat split; auto.
  exists l. repeat split; auto.
  unfold discovered. cbn. rewrite <- !app_assoc. reflexivity.
Qed.

(** ** Runs of the Comparison node *)

(** Once the matrix call has returned, [feature_comparison] is the parsed
    matrix or its stand-in, whatever happens afterwards. *)
Lemma comparison_agent_matrix (env : Env) (w w' : World) (r : result unit)
    (business : pystr) (rivals : pyval) (content : pystr) :
  comparison_agent env w = (r, w') ->
  In (comparison_prompt business rivals, Ok content) (llm_calls_since w w') ->
  feature_comparison (board w')
  = parse_or_fallback LBRACE RBRACE content placeholder_matrix empty_matrix.
Proof.
  destruct w as [b h ll sl nl]. unfold comparison_agent, llm_calls_since.
  intros Hrun Hin. run_cbn Hrun. cbn [llm_log] in Hin.
  match type of Hrun with
  | context [llm_invoke env ?n ?p] => destruct (llm_invoke env n p) as [c|e] eqn:E0
  end.
  2:{ inversion Hrun; subst; clear Hrun. cbn [llm_log] in Hin.
      rewrite skipn_length_app in Hin. destruct Hin as [Hin|[]]. discriminate. }
  run_cbn Hrun.
  destruct (matrix_dict c) as [d Ed]. rewrite Ed in Hrun. cbn [py_get] in Hrun.
  assert (forall X : list (Prompt * result pystr),
            In (comparison_prompt business rivals, Ok content)
               ((comparison_prompt (user_input b) (competitors b), Ok c) :: X) ->
            (forall x, In x X -> exists a b0 c0 r0, x = (strategy_prompt a b0 c0, r0)) ->
            content = c) as Hsame.
  { intros X [H|H] HX; [now inversion H|].
    destruct (HX _ H) as (a0 & b0 & c1 & r0 & Hx). discriminate. }
  destruct (match dict_lookup d (lit "features") with
            | Some x => Ok x
            | None => Ok (PList [])
            end) as [features|e] eqn:Ef.
  2:{ destruct (dict_lookup d (lit "features")); discriminate. }
  run_cbn Hrun.
  destruct (py_len features) as [n|e] eqn:En.
  2:{ inversion Hrun; subst; clear Hrun. cbn [board llm_log feature_comparison with_feature_comparison] in *.
      rewrite skipn_length_app in Hin.
      rewrite (Hsame [] Hin); [rewrite Ed; reflexivity | intros x []]. }
  run_cbn Hrun.
  match type of Hrun with
  | context [llm_invoke env ?n ?p] => destruct (llm_invoke env n p) as [rec|e] eqn:E1
  end.
  - run_cbn Hrun. inversion Hrun; subst; clear Hrun.
    cbn [board llm_log] in *. rewrite <- app_assoc, skipn_length_app in Hin.
    cbn in Hin.
    assert (content = c) as ->.
    { destruct Hin as [H|[H|[]]]; [now inversion H | discriminate]. }
    rewrite Ed. reflexivity.
  - inversion Hrun; subst; clear Hrun.
    cbn [board llm_log] in *. rewrite <- app_assoc, skipn_length_app in Hin.
    cbn in Hin.
    assert (content = c) as ->.
    { destruct Hin as [H|[H|[]]]; [now inversion H | discriminate]. }
    rewrite Ed. reflexivity.
Qed.

(** ** Section extraction *)










(** ** Runs of the Analysis node and of the driver *)

(** In the module as it is, the name [json] is unbound where
    [analysis_agent] uses it. *)
Lemma json_unbound : bound "json" main_globals = false.
Proof. reflexivity. Qed.

Lemma analysis_agent_raises (env : Env) (w : World) :
  analysis_agent main_globals env w
  = (Raise (NameError "json"),
     {| board := with_messages
                   (with_agent_status (board w)
                      (status_set (agent_status (board w)) analysis working))
                   (messages (board w) ++ [msg_analysis_start]);
        history := history w
                   ++ [with_agent_status (board w)
                         (status_set (agent_status (board w)) analysis working);
                       with_messages
                         (with_agent_status (board w)
                            (status_set (agent_status (board w)) analysis working))
                         (messages (board w) ++ [msg_analysis_start])];
        llm_log := llm_log w; search_log := search_log w;
        node_log := node_log w |}).
Proof.
  destruct w as [b h ll sl nl]. unfold analysis_agent, lookup_global.
  rewrite json_unbound. cbn. rewrite <- app_assoc. reflexivity.
Qed.


(** The driver runs Discovery; if Discovery raises, so does the driver;
    if Discovery returns, the channels are updated, the Analysis node
    starts and raises [NameError], and the driver raises it. *)
Lemma driver_run (env : Env) (business mode : pystr) :
  let d := firecrawl_agent env (first_node_world business mode) in
  let out := run_competitor_analysis env business mode in
  match fst d with
  | Raise e => out = (Raise e, snd d)
  | Ok _ =>
      fst out = Raise (NameError "json") /\
      node_log (snd out) = node_log (snd d) ++ [analysis] /\
      llm_log (snd out) = llm_log (snd d) /\
      search_log (snd out) = search_log (snd d) /\
      agent_status (board (snd out))
      = status_set (agent_status (board (snd d))) analysis working
  end.
Proof.
  unfold run_competitor_analysis, invoke, create_workflow, recursion_limit,
    init_world.
  cbn [run_from assoc agent_eqb nodes edges entry_point].
  unfold run_node, log_node, get_board, modify, ret. unfold bind.
  cbn [board history llm_log search_log node_log app].
  fold (first_node_world business mode).
  destruct (firecrawl_agent env (first_node_world business mode)) as [[[]|e] w1];
    cbn [fst snd board history llm_log search_log node_log]; [|reflexivity].
  rewrite analysis_agent_raises. cbn. auto.
Qed.

(** ** The course of the blackboard in a run *)

Lemma last_cons_default {A} (x : A) (l : list A) (d d' : A) :
  last (x :: l) d = last (x :: l) d'.
Proof.
  revert x. induction l as [|y l IH]; intros x; [reflexivity|].
  change (last (y :: l) d = last (y :: l) d'). apply IH.
Qed.

Lemma last_app_default {A} (l1 l2 : list A) (d : A) :
  last (l1 ++ l2) d = last l2 (last l1 d).
Proof.
  induction l1 as [|x l1 IH]; [reflexivity|].
  destruct l2 as [|z l2]; [now rewrite app_nil_r|].
  destruct l1 as [|y l1].
  - apply (last_cons_default z l2).
  - change (last ((y :: l1) ++ z :: l2) d = last (z :: l2) (last (y :: l1) d)).
    exact IH.
Qed.

Lemma chain_app (R : AgentState -> AgentState -> Prop) (hs1 hs2 : list AgentState) :
  forall b, chain R b hs1 -> chain R (last hs1 b) hs2 -> chain R b (hs1 ++ hs2).
Proof.
  induction hs1 as [|h t IH]; intros b H1 H2; simpl in *; [exact H2|].
  destruct H1 as [Hr Ht]. split; [exact Hr|].
  apply IH; [exact Ht|]. destruct t as [|a t]; [exact H2|].
  now rewrite (last_cons_default a t h b).
Qed.

Lemma chain_impl (R R' : AgentState -> AgentState -> Prop) (hs : list AgentState) :
  (forall x y, R x y -> R' x y) -> forall b, chain R b hs -> chain R' b hs.
Proof.
  intros HR. induction hs as [|h t IH]; intros b H; simpl in *; [exact I|].
  destruct H; auto.
Qed.

Lemma tame_ret {A} R (a : A) : tame R (ret a).
Proof.
  intros w r w' H. inversion H; subst. split; [reflexivity|].
  exists []. rewrite app_nil_r. simpl. auto.
Qed.

Lemma tame_raise {A} R (e : exn) : tame R (@raise A e).
Proof.
  intros w r w' H. inversion H; subst. split; [reflexivity|].
  exists []. rewrite app_nil_r. simpl. auto.
Qed.

Lemma tame_lift {A} R (x : result A) : tame R (lift x).
Proof.
  intros w r w' H. inversion H; subst. split; [reflexivity|].
  exists []. rewrite app_nil_r. simpl. auto.
Qed.

Lemma tame_get_board R : tame R get_board.
Proof.
  intros w r w' H. inversion H; subst. split; [reflexivity|].
  exists []. rewrite app_nil_r. simpl. auto.
Qed.

Lemma tame_llm_call R (env : Env) (p : Prompt) : tame R (llm_call env p).
Proof.
  intros w r w' H. inversion H; subst. split; [reflexivity|].
  exists []. simpl. rewrite app_nil_r. auto.
Qed.

Lemma tame_lookup_global R (globals : list string) (name : string) :
  tame R (lookup_global globals name).
Proof.
  unfold lookup_global. destruct (bound name globals);
    [apply tame_ret | apply tame_raise].
Qed.

Lemma tame_modify (R : AgentState -> AgentState -> Prop) (f : AgentState -> AgentState) :
  (forall b, R b (f b)) -> tame R (modify f).
Proof.
  intros Hf w r w' H. inversion H; subst. split; [reflexivity|].
  exists [f (board w)]. simpl. auto.
Qed.

Lemma tame_bind {A B} R (m : M A) (f : A -> M B) :
  tame R m -> (forall a, tame R (f a)) -> tame R (bind m f).
Proof.
  intros Hm Hf w r w' H. unfold bind in H.
  destruct (m w) as [[a|e] w1] eqn:E.
  - destruct (Hm _ _ _ E) as (Hn1 & hs1 & Hh1 & Hb1 & Hc1).
    destruct (Hf a _ _ _ H) as (Hn2 & hs2 & Hh2 & Hb2 & Hc2).
    split; [congruence|]. exists (hs1 ++ hs2). repeat split.
    + rewrite Hh2, Hh1. now rewrite app_assoc.
    + rewrite Hb2, Hb1. now rewrite last_app_default.
    + apply chain_app; [exact Hc1 | now rewrite <- Hb1].
  - inversion H; subst. exact (Hm _ _ _ E).
Qed.

Lemma tame_search_loop R (env : Env) (business : pystr) (qs : list pyval) :
  forall acc, tame R (search_loop env business qs acc).
Proof.
  intros acc w r w' H.
  destruct (search_loop_run env business qs acc w) as (evs & E & _).
  rewrite E in H. inversion H; subst. split; [reflexivity|].
  exists []. simpl. rewrite app_nil_r. auto.
Qed.

Lemma quiet_messages a (b : AgentState) (msg : pystr) :
  stage_step a b (with_messages b (messages b ++ [msg])).
Proof. split; [now exists [msg] | now left]. Qed.

Lemma tame_append_message a (msg : pystr) : tame (stage_step a) (append_message msg).
Proof. apply tame_modify. intros b. apply quiet_messages. Qed.

Lemma tame_set_complete a : tame (stage_step a) (set_status a complete).
Proof.
  apply tame_modify. intros b.
  split; [exists []; simpl; now rewrite app_nil_r | now right].
Qed.

Ltac tame_field :=
  apply tame_modify; intros ?;
  split; [exists []; simpl; now rewrite app_nil_r | now left].

Ltac tame_steps :=
  repeat first
    [ apply tame_append_message
    | apply tame_set_complete
    | apply tame_llm_call
    | apply tame_lift
    | apply tame_lookup_global
    | apply tame_search_loop
    | apply tame_ret
    | tame_field
    | apply tame_bind; [|intros ?] ].

(** After its first write, each node only makes writes of its stage. *)
Lemma store_analysis_tame (narrative : pystr) :
  tame (stage_step analysis) (store_analysis narrative).
Proof. unfold store_analysis. tame_steps. Qed.

Lemma chain_quiet (hs : list AgentState) :
  forall b, chain quiet b hs ->
            agent_status (last hs b) = agent_status b /\
            exists extra, messages (last hs b) = messages b ++ extra.
Proof.
  induction hs as [|h t IH]; intros b H.
  - simpl. split; [reflexivity|]. exists []. now rewrite app_nil_r.
  - destruct H as [[[e1 Hl] Hs] Ht]. destruct (IH _ Ht) as [IHs [e2 IHl]].
    destruct t as [|x t].
    + simpl. split; [exact Hs | now exists e1].
    + change (last (h :: x :: t) b) with (last (x :: t) b).
      rewrite (last_cons_default x t b h). split; [congruence|].
      exists (e1 ++ e2). now rewrite IHl, Hl, app_assoc.
Qed.

Lemma chain_stage_messages a (hs : list AgentState) :
  forall b, chain (stage_step a) b hs ->
            exists extra, messages (last hs b) = messages b ++ extra.
Proof.
  induction hs as [|h t IH]; intros b H.
  - exists []. simpl. now rewrite app_nil_r.
  - destruct H as [[[e1 Hl] _] Ht]. destruct (IH _ Ht) as [e2 IHl].
    destruct t as [|x t]; [now exists e1|].
    change (last (h :: x :: t) b) with (last (x :: t) b).
    rewrite (last_cons_default x t b h).
    exists (e1 ++ e2). now rewrite IHl, Hl, app_assoc.
Qed.

Lemma quiet_stage a (b b' : AgentState) : quiet b b' -> stage_step a b b'.
Proof. intros [Hl Hs]. split; [exact Hl | now left]. Qed.

Lemma tame_quiet_stage {A} a (m : M A) : tame quiet m -> tame (stage_step a) m.
Proof.
  intros Hm w r w' H. destruct (Hm _ _ _ H) as (Hn & hs & Hh & Hb & Hc).
  split; [exact Hn|]. exists hs. repeat split; auto.
  eapply chain_impl; [|exact Hc]. intros x y. apply quiet_stage.
Qed.

Lemma tame_quiet_status {A} (m : M A) (w w' : World) (r : result A) :
  tame quiet m -> m w = (r, w') ->
  agent_status (board w') = agent_status (board w) /\
  exists extra, messages (board w') = messages (board w) ++ extra.
Proof.
  intros Hm H. destruct (Hm _ _ _ H) as (_ & hs & _ & Hb & Hc).
  rewrite Hb. now apply chain_quiet.
Qed.

Lemma stage_tail_bind {A} a (m : M A) (f : A -> M unit) :
  tame quiet m -> (forall x, stage_tail a (f x)) -> stage_tail a (bind m f).
Proof.
  intros Hm Hf. split; [|split].
  - apply tame_bind; [now apply tame_quiet_stage | intros x; apply (Hf x)].
  - intros w e w' H. unfold bind in H. destruct (m w) as [[x|e1] w1] eqn:E.
    + destruct (Hf x) as (_ & Hraise & _). rewrite (Hraise _ _ _ H).
      apply (@tame_quiet_status _ _ _ _ _ Hm E).
    + inversion H; subst. apply (@tame_quiet_status _ _ _ _ _ Hm E).
  - intros w w' H. unfold bind in H. destruct (m w) as [[x|e1] w1] eqn:E;
      [|discriminate].
    destruct (Hf x) as (_ & _ & Hok). rewrite (Hok _ _ H).
    now rewrite (proj1 (@tame_quiet_status _ _ _ _ _ Hm E)).
Qed.

Lemma stage_tail_complete a : stage_tail a (set_status a complete).
Proof.
  split; [|split].
  - apply tame_set_complete.
  - intros w e w' H. discriminate.
  - intros w w' H. inversion H; subst. reflexivity.
Qed.

Lemma tame_quiet_append (msg : pystr) : tame quiet (append_message msg).
Proof.
  apply tame_modify. intros b. split; [now exists [msg] | reflexivity].
Qed.

Ltac quiet_field :=
  apply tame_modify; intros ?;
  split; [exists []; simpl; now rewrite app_nil_r | reflexivity].

Ltac quiet_steps :=
  repeat first
    [ apply tame_quiet_append
    | apply tame_llm_call
    | apply tame_lift
    | apply tame_lookup_global
    | apply tame_search_loop
    | apply tame_ret
    | quiet_field
    | apply tame_bind; [|intros ?] ].

Ltac stage_tail_steps :=
  repeat first
    [ apply stage_tail_complete
    | apply stage_tail_bind; [solve [quiet_steps] | intros ?] ].

Lemma store_analysis_quiet (narrative : pystr) : tame quiet (store_analysis narrative).
Proof. unfold store_analysis. quiet_steps. Qed.

Lemma status_set_twice (m : StatusMap) (a : Agent) (s s' : Status) :
  status_set (status_set m a s) a s' = status_set m a s'.
Proof. destruct a; reflexivity. Qed.

Lemma node_course_intro (a : Agent) (msg : pystr) (tail : AgentState -> M unit) :
  (forall s, stage_tail a (tail s)) ->
  node_course a
    (bind get_board (fun s =>
       bind (set_status a working) (fun _ =>
         bind (append_message msg) (fun _ => tail s)))).
Proof.
  intros Ht w r w' H.
  cbn [bind get_board set_status append_message modify] in H.
  match type of H with
  | tail _ ?W = _ => set (w2 := W) in *
  end.
  destruct (Ht (board w)) as (Htame & Hraise & Hok).
  destruct (Htame _ _ _ H) as (Hn & hs & Hh & Hb & Hc).
  split; [exact Hn|]. split; [|split].
  - exists (with_agent_status (board w) (status_set (agent_status (board w)) a working)),
           (board w2), hs.
    repeat split; auto.
    + rewrite Hh. subst w2. cbn [history]. now rewrite <- !app_assoc.
    + subst w2. cbn. now exists msg.
  - intros ->. rewrite (Hok _ _ H). subst w2. cbn [board with_messages agent_status
      with_agent_status]. apply status_set_twice.
  - intros e ->. rewrite (Hraise _ _ _ H). reflexivity.
Qed.

Lemma firecrawl_agent_course (env : Env) : node_course firecrawl (firecrawl_agent env).
Proof.
  unfold firecrawl_agent. cbv zeta.
  apply node_course_intro. intros s. stage_tail_steps.
Qed.

Lemma analysis_agent_course (globals : list string) (env : Env) :
  node_course analysis (analysis_agent globals env).
Proof.
  unfold analysis_agent, store_analysis. cbv zeta.
  apply node_course_intro. intros s. stage_tail_steps.
Qed.

Lemma comparison_agent_course (env : Env) :
  node_course comparison (comparison_agent env).
Proof.
  unfold comparison_agent. cbv zeta.
  apply node_course_intro. intros s. stage_tail_steps.
Qed.

(** * The claims *)

Lemma In_calls_two {A} (x a b : A) : In x [a; b] -> x = a \/ x = b.
Proof. simpl. intuition. Qed.

(** ** Discovery: ranking *)

(** C1.  In every run of Discovery whose ranking call returns [content]:
    when [content] holds no bracketed substring, [competitors] is the
    empty list; when it holds one that [json.loads] rejects,
    [competitors] is the list of the one placeholder; in both cases the
    node returns and its status is [complete]. *)
Theorem ranking_fallbacks_asymmetric
    (env : Env) (w w' : World) (r : result unit)
    (business : pystr) (raw : list pyval) (content : pystr) :
  firecrawl_agent env w = (r, w') ->
  In (ranking_prompt business raw, Ok content) (llm_calls_since w w') ->
  (re_search LBRACKET RBRACKET content = None ->
   competitors (board w') = PList [] /\
   r = Ok tt /\ status_of (agent_status (board w')) firecrawl = complete)
  /\
  (forall group e,
     re_search LBRACKET RBRACKET content = Some group ->
     json_loads group = Raise e ->
     competitors (board w') = PList [placeholder_competitor] /\
     r = Ok tt /\ status_of (agent_status (board w')) firecrawl = complete).
Proof.
  intros Hrun Hin.
  destruct (firecrawl_agent_run _ _ Hrun) as [_ [(Hc & _) | Hcase]].
  { rewrite Hc in Hin. destruct Hin as [Hin|[]]. discriminate. }
  destruct Hcase as (c0 & qs & evs & r1 & _ & _ & _ & _ & Hc & _ & _ & Hr1).
  rewrite Hc in Hin. apply In_calls_two in Hin as [Hin|Hin]; [discriminate|].
  inversion Hin; subst; clear Hin.
  destruct Hr1 as (l & Hl & -> & ->). cbn [board discovered competitors agent_status].
  unfold parse_or_fallback in Hl. split.
  - intros Hnone. rewrite Hnone in Hl. rewrite <- Hl. auto.
  - intros group e Hsome Hbad. rewrite Hsome, Hbad in Hl. rewrite <- Hl. auto.
Qed.

Lemma ranking_fallbacks_witness :
  (competitors (board (snd (firecrawl_agent env_prose start_world))) = PList [] /\
   fst (firecrawl_agent env_prose start_world) = Ok tt /\
   status_of (agent_status (board (snd (firecrawl_agent env_prose start_world))))
     firecrawl = complete)
  /\
  (competitors (board (snd (firecrawl_agent env_broken start_world)))
   = PList [placeholder_competitor] /\
   fst (firecrawl_agent env_broken start_world) = Ok tt /\
   status_of (agent_status (board (snd (firecrawl_agent env_broken start_world))))
     firecrawl = complete).
Proof.
  split.
  - refine (proj1 (@ranking_fallbacks_asymmetric env_prose start_world _ _
                     (lit "CRM for dentists") _ prose_answer
                     (surjective_pairing _) _) _).
    + vm_compute. right. left. reflexivity.
    + vm_compute. reflexivity.
  - refine (proj2 (@ranking_fallbacks_asymmetric env_broken start_world _ _
                     (lit "CRM for dentists") _ broken_answer
                     (surjective_pairing _) _) _ JSONDecodeError _ _).
    + vm_compute. right. left. reflexivity.
    + vm_compute. reflexivity.
    + vm_compute. reflexivity.
Defined.

(** C9.  When the ranking answer parses, the parsed value becomes
    [competitors] as it is, whatever its shape; for the answer that is a
    JSON array of two plain strings, the elements of [competitors] have
    none of the fields of a Competitor record. *)
Theorem ranking_stores_parsed_value_unvalidated :
  (forall (env : Env) (w w' : World) (r : result unit)
          (business : pystr) (raw : list pyval) (content group : pystr) (v : pyval),
     firecrawl_agent env w = (r, w') ->
     In (ranking_prompt business raw, Ok content) (llm_calls_since w w') ->
     re_search LBRACKET RBRACKET content = Some group ->
     json_loads group = Ok v ->
     competitors (board w') = v /\ r = Ok tt)
  /\
  (re_search LBRACKET RBRACKET names_answer = Some names_answer /\
   json_loads names_answer = Ok (PList [PStr (lit "Acme CRM"); PStr (lit "Globex")]) /\
   forall (env : Env) (w w' : World) (r : result unit)
          (business : pystr) (raw : list pyval),
     firecrawl_agent env w = (r, w') ->
     In (ranking_prompt business raw, Ok names_answer) (llm_calls_since w w') ->
     exists l,
       competitors (board w') = PList l /\ l <> [] /\
       forall x field, In x l -> In field competitor_fields ->
                       has_field x field = false).
Proof.
  assert (forall (env : Env) (w w' : World) (r : result unit)
                 (business : pystr) (raw : list pyval) (content group : pystr) (v : pyval),
     firecrawl_agent env w = (r, w') ->
     In (ranking_prompt business raw, Ok content) (llm_calls_since w w') ->
     re_search LBRACKET RBRACKET content = Some group ->
     json_loads group = Ok v ->
     competitors (board w') = v /\ r = Ok tt) as General.
  { intros env w w' r business raw content group v Hrun Hin Hsome Hok.
    destruct (firecrawl_agent_run _ _ Hrun) as [_ [(Hc & _) | Hcase]].
    { rewrite Hc in Hin. destruct Hin as [Hin|[]]. discriminate. }
    destruct Hcase as (c0 & qs & evs & r1 & _ & _ & _ & _ & Hc & _ & _ & Hr1).
    rewrite Hc in Hin. apply In_calls_two in Hin as [Hin|Hin]; [discriminate|].
    inversion Hin; subst; clear Hin.
    destruct Hr1 as (l & Hl & -> & ->). cbn [board discovered competitors].
    unfold parse_or_fallback in Hl. rewrite Hsome, Hok in Hl. auto. }
  split; [exact General|].
  assert (re_search LBRACKET RBRACKET names_answer = Some names_answer) as Hsome
    by (vm_compute; reflexivity).
  assert (json_loads names_answer
          = Ok (PList [PStr (lit "Acme CRM"); PStr (lit "Globex")])) as Hok
    by (vm_compute; reflexivity).
  split; [exact Hsome|]. split; [exact Hok|].
  intros env w w' r business raw Hrun Hin.
  destruct (General _ _ _ _ _ _ _ _ _ Hrun Hin Hsome Hok) as [-> _].
  eexists. split; [reflexivity|]. split; [discriminate|].
  intros x field [<-|[<-|[]]] _; reflexivity.
Qed.

Lemma ranking_stores_parsed_value_witness :
  competitors (board (snd (firecrawl_agent env_names start_world)))
  = PList [PStr (lit "Acme CRM"); PStr (lit "Globex")]
  /\ fst (firecrawl_agent env_names start_world) = Ok tt.
Proof.
  refine (proj1 ranking_stores_parsed_value_unvalidated env_names start_world _ _
            (lit "CRM for dentists") _ names_answer names_answer _
            (surjective_pairing _) _ _ _).
  - vm_compute. right. left. reflexivity.
  - vm_compute. reflexivity.
  - vm_compute. reflexivity.
Defined.

(** ** Discovery: searches *)






(** ** Discovery: planning *)

(** A planning answer with a bracketed substring that [json.loads]
    rejects ends the node with that exception: [search_queries] keeps its
    old value, and no search and no further inference call is made. *)
Lemma planning_failure_propagates
    (env : Env) (w : World) (c0 group : pystr) (e : exn) :
  llm_invoke env (length (llm_log w)) (planning_prompt (user_input (board w))) = Ok c0 ->
  re_search LBRACKET RBRACKET c0 = Some group ->
  json_loads group = Raise e ->
  fst (firecrawl_agent env w) = Raise e /\
  search_queries (board (snd (firecrawl_agent env w))) = search_queries (board w) /\
  searches_since w (snd (firecrawl_agent env w)) = [].
Proof.
  intros H0 Hsome Hbad.
  assert (plan_queries c0 = Raise e) as Hp
    by (unfold plan_queries; now rewrite Hsome).
  destruct w as [b h ll sl nl]. unfold firecrawl_agent, searches_since.
  cbn [board llm_log] in H0.
  run_cbn_goal. rewrite H0. run_cbn_goal. rewrite Hp.
  cbn. rewrite skipn_all. auto.
Qed.

(** A planning answer without brackets gives the three generic queries. *)
Lemma planning_no_brackets (content : pystr) :
  re_search LBRACKET RBRACKET content = None ->
  plan_queries content = Ok generic_queries.
Proof. unfold plan_queries. now intros ->. Qed.

(** C2, at the failing input.  The planning answer
    [[competitors, alternatives]] has a bracketed substring that is no
    JSON: Discovery raises [JSONDecodeError] out of the node, the driver
    raises it too, and [search_queries] is not the generic list. *)
Theorem planning_parse_error_is_not_caught :
  re_search LBRACKET RBRACKET (lit "[competitors, alternatives]")
  = Some (lit "[competitors, alternatives]")
  /\ json_loads (lit "[competitors, alternatives]") = Raise JSONDecodeError
  /\ fst (firecrawl_agent env_bad_plan start_world) = Raise JSONDecodeError
  /\ search_queries (board (snd (firecrawl_agent env_bad_plan start_world)))
     = PList []
  /\ fst (run_competitor_analysis env_bad_plan
            (lit "CRM for dentists") (lit "description"))
     = Raise JSONDecodeError.
Proof.
  vm_compute. repeat split.
Qed.

(** ** Comparison: the feature matrix *)

(** C4.  In every run of the Comparison node whose matrix call returns
    [content]: when [content] holds a braced substring that [json.loads]
    rejects, [feature_comparison] is the placeholder matrix, whose
    [features] list has exactly one element; when it holds no braced
    substring, [feature_comparison] is a matrix whose [features] list is
    empty. *)
Theorem matrix_fallbacks_asymmetric
    (env : Env) (w w' : World) (r : result unit)
    (business : pystr) (rivals : pyval) (content : pystr) :
  comparison_agent env w = (r, w') ->
  In (comparison_prompt business rivals, Ok content) (llm_calls_since w w') ->
  (forall group e,
     re_search LBRACE RBRACE content = Some group ->
     json_loads group = Raise e ->
     feature_comparison (board w') = placeholder_matrix /\
     py_get (feature_comparison (board w')) (lit "features") (PList [])
     = Ok (PList [placeholder_feature]))
  /\
  (re_search LBRACE RBRACE content = None ->
   feature_comparison (board w') = empty_matrix /\
   py_get (feature_comparison (board w')) (lit "features") (PList [])
   = Ok (PList [])).
Proof.
  intros Hrun Hin.
  rewrite (@comparison_agent_matrix _ _ _ _ _ _ _ Hrun Hin).
  unfold parse_or_fallback. split.
  - intros group e -> ->. split; reflexivity.
  - intros ->. split; reflexivity.
Qed.

Lemma matrix_fallbacks_witness :
  (feature_comparison (board (snd (comparison_agent env_matrix_broken start_world)))
   = placeholder_matrix /\
   py_get (feature_comparison
             (board (snd (comparison_agent env_matrix_broken start_world))))
          (lit "features") (PList [])
   = Ok (PList [placeholder_feature]))
  /\
  (feature_comparison (board (snd (comparison_agent env_matrix_prose start_world)))
   = empty_matrix /\
   py_get (feature_comparison
             (board (snd (comparison_agent env_matrix_prose start_world))))
          (lit "features") (PList [])
   = Ok (PList [])).
Proof.
  split.
  - refine (proj1 (@matrix_fallbacks_asymmetric env_matrix_broken start_world _ _
                     (lit "CRM for dentists") (PList []) broken_matrix
                     (surjective_pairing _) _)
                  (lit "{ features: none }") JSONDecodeError _ _).
    + vm_compute. left. reflexivity.
    + vm_compute. reflexivity.
    + vm_compute. reflexivity.
  - refine (proj2 (@matrix_fallbacks_asymmetric env_matrix_prose start_world _ _
                     (lit "CRM for dentists") (PList []) prose_answer
                     (surjective_pairing _) _) _).
    + vm_compute. left. reflexivity.
    + vm_compute. reflexivity.
Defined.

(** ** Analysis: section extraction *)





(** ** The driver *)

(** C7, at the failing input.  No run of the driver completes.  When
    Discovery returns, the Analysis node raises [NameError] for [json]
    and the driver raises it: the statuses end as [complete], [working],
    [pending].  When Discovery raises, the driver raises the same
    exception.  In no run does [analysis] reach [complete] or
    [comparison] leave [pending]. *)
Theorem pipeline_never_completes (env : Env) (business mode : pystr) :
  let out := run_competitor_analysis env business mode in
  (exists e, fst out = Raise e) /\
  status_of (agent_status (board (snd out))) analysis <> complete /\
  status_of (agent_status (board (snd out))) comparison = pending /\
  match discovery_outcome env business mode with
  | Ok _ =>
      fst out = Raise (NameError "json") /\
      agent_status (board (snd out))
      = {| status_firecrawl := complete; status_analysis := working;
           status_comparison := pending |}
  | Raise e => fst out = Raise e
  end.
Proof.
  pose proof (driver_run env business mode) as H. cbv zeta in *.
  unfold discovery_outcome.
  destruct (firecrawl_agent env (first_node_world business mode)) as [r w1] eqn:Hd.
  destruct (@firecrawl_agent_run _ _ _ _ Hd) as [[_ (s & Hs & Hok)] _].
  cbn [fst snd] in *. destruct r as [[]|e].
  - destruct H as (Hr & _ & _ & _ & Hst). rewrite Hr, Hst, Hs.
    rewrite (Hok eq_refl). cbn. repeat split; eauto. discriminate.
  - rewrite H. cbn [fst snd]. rewrite Hs. cbn.
    repeat split; eauto. discriminate.
Qed.

(** C8, at the failing input.  The driver starts from the state with
    every field empty and every status [pending], and starts Discovery
    first.  The Comparison node is never started: the nodes started are
    Discovery alone when it raises, and Discovery then Analysis when it
    returns, after which the driver raises [NameError] for [json]
    instead of returning a state.  So it is with an empty competitor
    list, as in the run on [env_prose]. *)
Theorem comparison_node_never_starts (env : Env) (business mode : pystr) :
  let out := run_competitor_analysis env business mode in
  initial_state business mode
  = {| user_input := business; analysis_mode := mode; messages := [];
       search_queries := PList []; raw_competitors := []; competitors := PList [];
       competitive_analysis := []; market_gaps := []; competitor_weaknesses := [];
       feature_comparison := PDict []; strategic_recommendations := [];
       agent_status := {| status_firecrawl := pending; status_analysis := pending;
                          status_comparison := pending |} |} /\
  ~ In comparison (node_log (snd out)) /\
  (exists e, fst out = Raise e) /\
  match discovery_outcome env business mode with
  | Ok _ => node_log (snd out) = [firecrawl; analysis] /\
            fst out = Raise (NameError "json")
  | Raise e => node_log (snd out) = [firecrawl] /\ fst out = Raise e
  end /\
  (competitors (board (snd (run_competitor_analysis env_prose
                              (lit "CRM for dentists") (lit "description"))))
   = PList [] /\
   node_log (snd (run_competitor_analysis env_prose
                    (lit "CRM for dentists") (lit "description")))
   = [firecrawl; analysis] /\
   fst (run_competitor_analysis env_prose
          (lit "CRM for dentists") (lit "description"))
   = Raise (NameError "json")).
Proof.
  split; [reflexivity|].
  assert (forall env0,
            let out := run_competitor_analysis env0 business mode in
            ~ In comparison (node_log (snd out)) /\
            (exists e, fst out = Raise e) /\
            match discovery_outcome env0 business mode with
            | Ok _ => node_log (snd out) = [firecrawl; analysis] /\
                      fst out = Raise (NameError "json")
            | Raise e => node_log (snd out) = [firecrawl] /\ fst out = Raise e
            end) as General.
  { intros env0. pose proof (driver_run env0 business mode) as H. cbv zeta in *.
    unfold discovery_outcome.
    destruct (firecrawl_agent env0 (first_node_world business mode)) as [r w1] eqn:Hd.
    destruct (@firecrawl_agent_run _ _ _ _ Hd) as [[Hn _] _].
    cbn [fst snd node_log first_node_world] in *. destruct r as [[]|e].
    - destruct H as (Hr & Hnl & _). rewrite Hr, Hnl, Hn. cbn.
      repeat split; eauto. intros [H0|[H0|[]]]; discriminate.
    - rewrite H. cbn [fst snd]. rewrite Hn.
      repeat split; eauto. intros [H0|[]]; discriminate. }
  destruct (General env) as (H1 & H2 & H3). cbv zeta.
  repeat split; auto.
Qed.

(** * Further properties of the nodes *)

(** ** Discovery *)

(** X1.  A run of Discovery makes one or two inference calls: first the
    planning call on the business input, then, if it gets that far, the
    ranking call, whose prompt carries the first ten raw competitors and
    no more. *)
Theorem discovery_inference_calls (env : Env) (w w' : World) (r : result unit) :
  firecrawl_agent env w = (r, w') ->
  exists r0 rest,
    llm_calls_since w w' = (planning_prompt (user_input (board w)), r0) :: rest /\
    (rest = [] \/
     exists r1,
       rest = [(ranking_prompt (user_input (board w))
                  (firstn 10 (raw_competitors (board w'))), r1)] /\
       length (firstn 10 (raw_competitors (board w'))) <= 10).
Proof.
  intros Hrun.
  destruct (firecrawl_agent_run _ _ Hrun) as [_ [(Hc & _) | Hcase]].
  - eexists _, []. split; [exact Hc | now left].
  - destruct Hcase as (c0 & qs & evs & r1 & Hr0 & _ & _ & _ & Hc & _ & Hraw & _).
    eexists _, _. split; [exact Hc|]. right. exists r1. rewrite Hraw.
    split; [reflexivity|]. rewrite length_firstn. apply Nat.le_min_l.
Qed.

Lemma discovery_inference_calls_witness :
  exists r0 rest,
    llm_calls_since start_world (snd (firecrawl_agent env_names start_world))
    = (planning_prompt (user_input (board start_world)), r0) :: rest /\
    (rest = [] \/
     exists r1,
       rest = [(ranking_prompt (user_input (board start_world))
                  (firstn 10 (raw_competitors
                     (board (snd (firecrawl_agent env_names start_world))))), r1)] /\
       length (firstn 10 (raw_competitors
                 (board (snd (firecrawl_agent env_names start_world))))) <= 10).
Proof.
  exact (@discovery_inference_calls env_names start_world _ _ (surjective_pairing _)).
Defined.

Lemma py_slice_length (content desc : pyval) (k : nat) :
  py_slice content k = Ok desc -> exists n, py_len desc = Ok n /\ n <= k.
Proof.
  destruct content; try discriminate; intros H; inversion H; subst; clear H;
    cbn [py_len]; eexists; (split; [reflexivity|]);
    rewrite length_firstn; apply Nat.le_min_l.
Qed.

Lemma raw_competitor_shape (item rc : pyval) :
  raw_competitor item = Ok rc -> raw_shape rc.
Proof.
  unfold raw_competitor. destruct item; try discriminate. cbn [py_get rbind].
  set (name := match dict_lookup d (lit "title") with
               | Some x => Ok x | None => Ok (PStr (lit "Unknown")) end).
  assert (exists x, name = Ok x) as [x0 ->]
    by (subst name; destruct (dict_lookup d (lit "title")); eauto).
  set (url := match dict_lookup d (lit "url") with
              | Some x => Ok x | None => Ok (PStr []) end).
  assert (exists x, url = Ok x) as [x1 ->]
    by (subst url; destruct (dict_lookup d (lit "url")); eauto).
  set (content := match dict_lookup d (lit "content") with
                  | Some x => Ok x | None => Ok (PStr []) end).
  assert (exists x, content = Ok x) as [x2 ->]
    by (subst content; destruct (dict_lookup d (lit "content")); eauto).
  cbn [rbind]. destruct (py_slice x2 200) as [desc|e] eqn:E; [|discriminate].
  cbn [rbind]. intros H; inversion H; subst; clear H.
  exists x0, x1, desc. split; [reflexivity|]. now apply py_slice_length in E.
Qed.

Lemma append_results_extends (items : list pyval) :
  forall acc, exists extra,
    append_results items acc = acc ++ extra /\
    Forall raw_shape extra /\ length extra <= length items.
Proof.
  induction items as [|item rest IH]; intros acc.
  - exists []. simpl. rewrite app_nil_r. repeat split; auto.
  - cbn [append_results]. destruct (raw_competitor item) as [rc|e] eqn:E.
    + destruct (IH (acc ++ [rc])) as (extra & -> & Hs & Hl).
      exists (rc :: extra). rewrite <- app_assoc. repeat split; simpl; auto; [|lia].
      constructor; [now apply raw_competitor_shape in E | exact Hs].
    + exists []. rewrite app_nil_r. repeat split; simpl; auto; lia.
Qed.

Lemma harvest_extends (outcome : result pyval) (acc : list pyval) :
  exists extra,
    match outcome with
    | Ok search_results => harvest search_results acc
    | Raise _ => acc
    end = acc ++ extra /\
    Forall raw_shape extra /\ length extra <= offered outcome.
Proof.
  assert (exists extra : list pyval,
            acc = acc ++ extra /\ Forall raw_shape extra /\ length extra <= 0) as Nothing
    by (exists []; rewrite app_nil_r; repeat split; auto).
  destruct outcome as [sr|e]; [|exact Nothing].
  unfold harvest, offered. destruct sr; try exact Nothing.
  cbn [py_get rbind].
  destruct (dict_lookup d (lit "results")) as [x|]; cbn [rbind py_iter];
    [|exact Nothing].
  destruct x; cbn [py_iter]; try exact Nothing.
  - (* a str: its characters have no [get] *)
    destruct s as [|c s]; [exact Nothing|]. cbn [map append_results raw_competitor py_get rbind].
    exact Nothing.
  - apply append_results_extends.
  - (* a dict: its keys have no [get] *)
    destruct d0 as [|kv d0]; [exact Nothing|]. cbn [map append_results raw_competitor py_get rbind].
    exact Nothing.
Qed.

Lemma gather_extends (outcomes : list (result pyval)) :
  forall acc, exists extra,
    gather outcomes acc = acc ++ extra /\
    Forall raw_shape extra /\
    length extra <= list_sum (map offered outcomes).
Proof.
  induction outcomes as [|o rest IH]; intros acc.
  - exists []. simpl. rewrite app_nil_r. repeat split; auto.
  - change (gather (o :: rest) acc)
      with (gather rest (match o with
                         | Ok search_results => harvest search_results acc
                         | Raise _ => acc
                         end)).
    destruct (harvest_extends o acc) as (e1 & -> & Hs1 & Hl1).
    destruct (IH (acc ++ e1)) as (e2 & -> & Hs2 & Hl2).
    exists (e1 ++ e2). rewrite <- app_assoc. repeat split; auto.
    + apply Forall_app. auto.
    + rewrite length_app. unfold list_sum in *. cbn [map fold_right]. lia.
Qed.

(** X2.  Once the searches of a run of Discovery are done, every entry of
    [raw_competitors] is a dict with the keys [name], [url],
    [description], [source] in that order, [source] being ['web_search']
    and [description] at most 200 long; and there are no more entries
    than the searches offered results. *)
Theorem raw_competitors_shape
    (env : Env) (w w' : World) (r : result unit)
    (p : pystr) (raw : list pyval) (r1 : result pystr) :
  firecrawl_agent env w = (r, w') ->
  In (ranking_prompt p raw, r1) (llm_calls_since w w') ->
  Forall raw_shape (raw_competitors (board w')) /\
  length (raw_competitors (board w'))
  <= list_sum (map offered (map snd (searches_since w w'))).
Proof.
  intros Hrun Hin.
  destruct (firecrawl_agent_run _ _ Hrun) as [_ [(Hc & _) | Hcase]].
  { rewrite Hc in Hin. destruct Hin as [Hin|[]]. discriminate. }
  destruct Hcase as (c0 & qs & evs & r2 & _ & _ & Hs & _ & _ & _ & Hraw & _).
  rewrite Hraw, Hs.
  destruct (gather_extends (map snd evs) []) as (extra & -> & Hsh & Hl).
  simpl. auto.
Qed.

Lemma raw_competitors_shape_witness :
  Forall raw_shape
    (raw_competitors (board (snd (firecrawl_agent env_names start_world)))) /\
  length (raw_competitors (board (snd (firecrawl_agent env_names start_world))))
  <= list_sum (map offered
       (map snd (searches_since start_world
                   (snd (firecrawl_agent env_names start_world))))).
Proof.
  refine (@raw_competitors_shape env_names start_world _ _
            (lit "CRM for dentists") _ (Ok names_answer) (surjective_pairing _) _).
  vm_compute. right. left. reflexivity.
Defined.

(** X3.  Within one search answer, results are taken in order until the
    first one that cannot be read (not a dict, or with a [content] that
    cannot be sliced): the entries before it are kept, that result and
    all after it are dropped, and nothing is raised. *)
Theorem harvest_stops_at_unreadable_result
    (d : list (pystr * pyval)) (before after : list pyval) (bad : pyval)
    (entries acc : list pyval) (e : exn) :
  dict_lookup d (lit "results") = Some (PList (before ++ bad :: after)) ->
  map raw_competitor before = map Ok entries ->
  raw_competitor bad = Raise e ->
  harvest (PDict d) acc = acc ++ entries.
Proof.
  intros Hd Hb Hbad. unfold harvest. cbn [py_get]. rewrite Hd. cbn [rbind py_iter].
  clear Hd. revert entries acc Hb.
  induction before as [|x before IH]; intros entries acc Hb.
  - destruct entries; [|discriminate]. simpl. rewrite Hbad. now rewrite app_nil_r.
  - destruct entries as [|y entries]; [discriminate|].
    simpl in Hb. inversion Hb as [[Hx Hrest]].
    cbn [app append_results]. rewrite Hx. rewrite (IH _ _ Hrest).
    now rewrite <- app_assoc.
Qed.

Lemma harvest_stops_witness :
  harvest (PDict [(lit "results",
                   PList ([good_item "Acme"] ++ null_content_item :: [good_item "Globex"]))])
          []
  = [] ++ [raw_of_good "Acme"].
Proof.
  refine (@harvest_stops_at_unreadable_result _ [good_item "Acme"] [good_item "Globex"]
            null_content_item [raw_of_good "Acme"] [] TypeError _ _ _).
  - vm_compute. reflexivity.
  - vm_compute. reflexivity.
  - vm_compute. reflexivity.
Defined.

(** ** Status and messages of the three nodes *)

Lemma node_course_outcome (a : Agent) (m : M unit) (w w' : World) (r : result unit) :
  node_course a m -> m w = (r, w') -> node_outcome a w r w'.
Proof.
  intros Hc H.
  destruct (Hc _ _ _ H)
    as (Hn & (h1 & h2 & tl & _ & _ & Hm1 & _ & (msg & Hm2) & Hb & Hchain) & Hok & Hraise).
  repeat split; auto.
  - destruct r as [[]|e]; [now apply Hok | now apply (Hraise e)].
  - destruct (chain_stage_messages _ _ _ Hchain) as [extra He].
    exists msg, extra. rewrite Hb, He, Hm2, Hm1. now rewrite <- app_assoc.
Qed.

(** X4.  Each of the three nodes, from any state and whatever the
    services answer, leaves its own [agent_status] entry at [complete]
    when it returns and at [working] when it raises, leaves the two other
    entries as they were, and leaves [messages] as it was followed by at
    least one new message. *)
Theorem node_status_and_messages
    (globals : list string) (env : Env) (w w' : World) (r : result unit) :
  (firecrawl_agent env w = (r, w') -> node_outcome firecrawl w r w') /\
  (analysis_agent globals env w = (r, w') -> node_outcome analysis w r w') /\
  (comparison_agent env w = (r, w') -> node_outcome comparison w r w').
Proof.
  split; [|split]; intros H.
  - exact (@node_course_outcome _ _ _ _ _ (firecrawl_agent_course env) H).
  - exact (@node_course_outcome _ _ _ _ _ (analysis_agent_course globals env) H).
  - exact (@node_course_outcome _ _ _ _ _ (comparison_agent_course env) H).
Qed.

Lemma node_status_and_messages_witness :
  node_outcome firecrawl start_world
    (fst (firecrawl_agent env_bad_plan start_world))
    (snd (firecrawl_agent env_bad_plan start_world))
  /\ node_outcome analysis start_world
       (fst (analysis_agent main_globals env_all_fine start_world))
       (snd (analysis_agent main_globals env_all_fine start_world))
  /\ node_outcome comparison start_world
       (fst (comparison_agent env_whole_run start_world))
       (snd (comparison_agent env_whole_run start_world)).
Proof.
  split; [|split].
  - exact (proj1 (@node_status_and_messages main_globals env_bad_plan start_world
                    _ _) (surjective_pairing _)).
  - exact (proj1 (proj2 (@node_status_and_messages main_globals env_all_fine start_world
                    _ _)) (surjective_pairing _)).
  - exact (proj2 (proj2 (@node_status_and_messages main_globals env_whole_run start_world
                    _ _)) (surjective_pairing _)).
Defined.
